(** * reload_operations_log: schema-sharded log ingestion

    A shallow embedding of [reload_operations_log.py]: the line parser
    ([normalize_value], [parse_line]), the classifier ([schema_key] and the
    grouping loop of [main]), the shard writer ([write_jsonl]) and the two
    store-sync drivers ([rebuild_duckdb_tables], [load_into_motherduck]).

    Modelling conventions.
    - A Python [str] is a [string]; a character is a code point below 256.
    - An [OrderedDict] is an association list in insertion order.
    - [records_by_schema], a plain [dict] that is only ever sorted, is a
      [gmap] from schema keys to record lists.
    - A [float] is kept as the decimal numeral it was read from.
    - The interpreter's cap on the digit count accepted by [int] is at its
      default, 4300 digits.
    - Directories are not modelled and opening a file for writing succeeds.
    - A file is known by the path it resolves to from the working
      directory; symbolic and hard links are not modelled.
    - Of the console output only that of the two sync drivers is traced. *)

From Stdlib Require Import ZArith Ascii String List Sorted Permutation Lia.
From Stdlib Require Import DecimalString DecimalNat.
From stdpp Require Import base gmap list strings sorting.

Local Open Scope Z_scope.
Local Open Scope nat_scope.

(** ** Python string primitives *)

Module Py.

(** [str.isspace] on one character (code points below 256). *)
Definition isspace (c : ascii) : bool :=
  let n := nat_of_ascii c in
  (Nat.leb 9 n && Nat.leb n 13) || (Nat.leb 28 n && Nat.leb n 32)
  || Nat.eqb n 133 || Nat.eqb n 160.

(** Decimal digits: the characters [int] and [float] accept. *)
Definition isdecimal (c : ascii) : bool :=
  let n := nat_of_ascii c in Nat.leb 48 n && Nat.leb n 57.

(** [str.isdigit] on one character: the decimal digits and the
    superscripts U+00B2, U+00B3, U+00B9. *)
Definition isdigit_char (c : ascii) : bool :=
  let n := nat_of_ascii c in
  isdecimal c || Nat.eqb n 178 || Nat.eqb n 179 || Nat.eqb n 185.

Fixpoint all_chars (p : ascii -> bool) (s : string) : bool :=
  match s with
  | EmptyString => true
  | String c s' => p c && all_chars p s'
  end.

(** [s.isdigit()]: non-empty and every character a digit. *)
Definition isdigit (s : string) : bool :=
  match s with
  | EmptyString => false
  | _ => all_chars isdigit_char s
  end.

Fixpoint lstrip (s : string) : string :=
  match s with
  | String c s' => if isspace c then lstrip s' else s
  | EmptyString => EmptyString
  end.

(** [s.rstrip()]: a character stays when something after it stays or
    when it is not whitespace. *)
Fixpoint rstrip (s : string) : string :=
  match s with
  | EmptyString => EmptyString
  | String c s' =>
      match rstrip s' with
      | EmptyString => if isspace c then EmptyString else String c EmptyString
      | kept => String c kept
      end
  end.

(** [s.strip()] *)
Definition strip (s : string) : string := rstrip (lstrip s).

Definition flush (tok : string) : list string :=
  match tok with EmptyString => [] | _ => [tok] end.

Fixpoint split_from (tok : string) (s : string) : list string :=
  match s with
  | EmptyString => flush tok
  | String c s' =>
      if isspace c then flush tok ++ split_from EmptyString s'
      else split_from (tok +:+ String c EmptyString) s'
  end.

(** [s.split()]: the maximal runs of non-whitespace characters. *)
Definition split (s : string) : list string := split_from EmptyString s.

Definition head (s : string) : option ascii :=
  match s with String c _ => Some c | EmptyString => None end.

Fixpoint last (s : string) : option ascii :=
  match s with
  | EmptyString => None
  | String c EmptyString => Some c
  | String _ s' => last s'
  end.

(** [s[1:]] *)
Definition tail (s : string) : string :=
  match s with String _ s' => s' | EmptyString => EmptyString end.

(** [s[:-1]] *)
Fixpoint init (s : string) : string :=
  match s with
  | EmptyString => EmptyString
  | String _ EmptyString => EmptyString
  | String c s' => String c (init s')
  end.

Definition startswith_char (c : ascii) (s : string) : bool :=
  match head s with Some a => Ascii.eqb a c | None => false end.

Definition endswith_char (c : ascii) (s : string) : bool :=
  match last s with Some a => Ascii.eqb a c | None => false end.

(** [c in s] for a one-character [c]. *)
Fixpoint contains (c : ascii) (s : string) : bool :=
  match s with
  | EmptyString => false
  | String a s' => Ascii.eqb a c || contains c s'
  end.

(** [s.count(c)] *)
Fixpoint count (c : ascii) (s : string) : nat :=
  match s with
  | EmptyString => 0
  | String a s' => (if Ascii.eqb a c then 1 else 0) + count c s'
  end.

(** [s.replace(c, "", 1)]: drop the first occurrence of [c]. *)
Fixpoint remove_first (c : ascii) (s : string) : string :=
  match s with
  | EmptyString => EmptyString
  | String a s' => if Ascii.eqb a c then s' else String a (remove_first c s')
  end.

(** [s.split(c, 1)] for a string that contains [c]: the text before the
    first [c] and the text after it.  Without a [c] the whole string is
    the first component. *)
Fixpoint partition (c : ascii) (s : string) : string * string :=
  match s with
  | EmptyString => (EmptyString, EmptyString)
  | String a s' =>
      if Ascii.eqb a c then (EmptyString, s')
      else let '(k, v) := partition c s' in (String a k, v)
  end.

Definition digit_value (c : ascii) : Z := Z.of_nat (nat_of_ascii c - 48).

Fixpoint int_from (acc : Z) (s : string) : Z :=
  match s with
  | EmptyString => acc
  | String c s' => int_from (10 * acc + digit_value c)%Z s'
  end.

(** [sys.int_info.default_max_str_digits]: the most digits [int] converts. *)
Definition MAX_STR_DIGITS : nat := 4300.

(** [int(s)] on the strings the caller's guard lets through (digits
    only): the value for decimal digits, no more than [MAX_STR_DIGITS] of
    them; [None] stands for [ValueError]. *)
Definition int (s : string) : option Z :=
  match s with
  | EmptyString => None
  | _ =>
      if all_chars isdecimal s && Nat.leb (String.length s) MAX_STR_DIGITS
      then Some (int_from 0%Z s) else None
  end.

(** [float(s)] on the strings the caller's guard lets through (digits
    and one point): the float is kept as its numeral; [None] stands for
    [ValueError]. *)
Definition float (s : string) : option string :=
  if isdigit (remove_first "." s) && all_chars isdecimal (remove_first "." s)
  then Some s else None.

End Py.

(** ** The one regular expression of the program *)

Module Re.

Section Matcher.
Context {R : Type}.

(** Literal text [l], then the rest of the pattern [k]. *)
Fixpoint lit (l : string) (k : string -> option R) (s : string) : option R :=
  match l with
  | EmptyString => k s
  | String a l' =>
      match s with
      | String c s' => if Ascii.eqb c a then lit l' k s' else None
      | EmptyString => None
      end
  end.

(** Greedy [cls*]: the longest run first, one character given back at a
    time while the rest of the pattern [k] fails.  [k] receives the
    text taken and the text left. *)
Fixpoint star (cls : ascii -> bool) (k : string -> string -> option R)
    (s : string) : option R :=
  match s with
  | String c s' =>
      if cls c then
        match star cls (fun g r => k (String c g) r) s' with
        | Some m => Some m
        | None => k EmptyString s
        end
      else k EmptyString s
  | EmptyString => k EmptyString s
  end.

(** Greedy [cls+]. *)
Definition plus (cls : ascii -> bool) (k : string -> string -> option R)
    (s : string) : option R :=
  match s with
  | String c s' =>
      if cls c then star cls (fun g r => k (String c g) r) s' else None
  | EmptyString => None
  end.
End Matcher.

Definition not_rparen (c : ascii) : bool := negb (Ascii.eqb c ")").

(** A match of [\(severity:\s*([^)]+)\)] at the start of [s]: group 1 and
    the text after the match. *)
Definition severity_at (s : string) : option (string * string) :=
  lit "(severity:"
    (star Py.isspace (fun _ =>
       plus not_rparen (fun g =>
         lit ")" (fun rest => Some (g, rest)))))
    s.

(** [re.search(pattern, s)]: the leftmost match; its group 1. *)
Fixpoint search (s : string) : option string :=
  match severity_at s with
  | Some (g, _) => Some g
  | None =>
      match s with
      | String _ s' => search s'
      | EmptyString => None
      end
  end.

(** [re.sub(pattern, "", s)], scanning left to right: a match is dropped
    and the scan resumes after it, any other character is copied. *)
Fixpoint sub_fuel (fuel : nat) (s : string) : string :=
  match fuel with
  | O => s
  | S fuel' =>
      match severity_at s with
      | Some (_, rest) => sub_fuel fuel' rest
      | None =>
          match s with
          | String c s' => String c (sub_fuel fuel' s')
          | EmptyString => EmptyString
          end
      end
  end.

Definition sub (s : string) : string := sub_fuel (S (String.length s)) s.

End Re.

(** ** Ordered dictionaries *)

Module OrderedDict.

Section Ops.
Context {V : Type}.

(** [d[k] = v]: in place when [k] is present, appended otherwise. *)
Fixpoint set (k : string) (v : V) (d : list (string * V)) : list (string * V) :=
  match d with
  | [] => [(k, v)]
  | (k', v') :: d' =>
      if String.eqb k k' then (k, v) :: d' else (k', v') :: set k v d'
  end.

(** [d.get(k)] *)
Fixpoint get (k : string) (d : list (string * V)) : option V :=
  match d with
  | [] => None
  | (k', v') :: d' => if String.eqb k k' then Some v' else get k d'
  end.

(** [d.keys()] *)
Definition keys (d : list (string * V)) : list string := map fst d.
End Ops.

End OrderedDict.

(** ** The line record parser *)

Inductive value : Type :=
| VStr (s : string)
| VInt (n : Z)
| VFloat (numeral : string).

#[global] Instance value_eq_dec : EqDecision value.
Proof. solve_decision. Defined.

Definition record : Type := list (string * value).

Definition BASE_COLUMNS : list string :=
  ["timestamp"; "message_type"; "service"; "action"].

Definition dquote : ascii := "034"%char.

(** The first three lines of [normalize_value]: strip, then drop one pair
    of surrounding double quotes. *)
Definition unquote (raw : string) : string :=
  let value := Py.strip raw in
  if Py.startswith_char dquote value && Py.endswith_char dquote value
  then Py.init (Py.tail value) else value.

Definition normalize_value (raw : string) : value :=
  let value := unquote raw in
  if Py.isdigit (Py.remove_first "." value) && Nat.leb (Py.count "." value) 1
  then
    if negb (Py.contains "." value)
    then match Py.int value with Some n => VInt n | None => VStr value end
    else match Py.float value with Some f => VFloat f | None => VStr value end
  else VStr value.

(** The loop state of the payload scan: the payload so far and
    [current_key]. *)
Definition scan_state : Type := list (string * string) * option string.

(** One iteration of [for token in payload_tokens].  [elif current_key:]
    tests truthiness: it fails for [None] and for the empty string. *)
Definition scan_token (st : scan_state) (token : string) : scan_state :=
  let '(payload, current_key) := st in
  if Py.contains "=" token then
    let '(key, value) := Py.partition "=" token in
    (OrderedDict.set key value payload, Some key)
  else
    match current_key with
    | Some (String c k) =>
        let key := String c k in
        match OrderedDict.get key payload with
        | Some old =>
            (OrderedDict.set key (old +:+ " " +:+ token) payload, current_key)
        | None => st (* a [KeyError]; the pending key is always present *)
        end
    | _ => st
    end.

Definition scan_payload (payload_tokens : list string) : scan_state :=
  fold_left scan_token payload_tokens ([], None).

(** [for key, raw_value in payload.items(): record[key] = ...] *)
Definition fill_record (base : record) (payload : list (string * string)) : record :=
  fold_left (fun rec kv => OrderedDict.set kv.1 (normalize_value kv.2) rec)
            payload base.

(** How [parse_line] rewrites the issue text once the annotation has been
    found: annotations removed, one trailing period dropped. *)
Definition clean_issue (issue_value : string) : string :=
  let issue_cleaned := Py.strip (Re.sub issue_value) in
  let issue_cleaned :=
    if Py.endswith_char "." issue_cleaned
    then Py.rstrip (Py.init issue_cleaned) else issue_cleaned in
  Py.strip issue_cleaned.

(** The severity post-processing of [parse_line]. *)
Definition extract_severity (rec : record) : record :=
  match OrderedDict.get "issue" rec with
  | Some (VStr issue_value) =>
      match Re.search issue_value with
      | Some group1 =>
          let rec := OrderedDict.set "severity" (VStr (Py.strip group1)) rec in
          OrderedDict.set "issue" (VStr (clean_issue issue_value)) rec
      | None => rec
      end
  | _ => rec
  end.

(** [parse_line] up to the end of the loop that fills the record. *)
Definition payload_record (line : string) : option record :=
  let parts := Py.split (Py.strip line) in
  match parts with
  | p0 :: p1 :: p2 :: p3 :: p4 :: p5 :: rest =>
      let timestamp := p0 +:+ " " +:+ p1 in
      let payload_tokens := p5 :: rest in
      let payload := (scan_payload payload_tokens).1 in
      let rec :=
        [("timestamp", VStr timestamp); ("message_type", VStr p2);
         ("service", VStr p3); ("action", VStr p4)] in
      Some (fill_record rec payload)
  | _ => None
  end.

Definition parse_line (line : string) : option record :=
  match payload_record line with
  | Some rec => Some (extract_severity rec)
  | None => None
  end.

Definition schema_key (rec : record) : list string := OrderedDict.keys rec.

(** ** The schema classifier: the reading loop of [main] *)

Abbreviation groups := (gmap (list string) (list record)).

(** One iteration of [for line in logfile].  [if not record] skips [None]
    and would skip an empty record. *)
Definition classify_line (records_by_schema : groups) (line : string) : groups :=
  match Py.strip line with
  | EmptyString => records_by_schema
  | _ =>
      match parse_line line with
      | Some (field :: fields) =>
          let rec := field :: fields in
          let key := schema_key rec in
          <[key := default [] (records_by_schema !! key) ++ [rec]]> records_by_schema
      | _ => records_by_schema
      end
  end.

Definition classify (lines : list string) : groups :=
  fold_left classify_line lines ∅.

(** ** Paths ([pathlib], POSIX flavour) *)

Module Path.

(** [root] is empty, ["/"] or ["//"]; [parts] are the components. *)
Record t : Type := mk { root : string; parts : list string }.

#[global] Instance eq_dec : EqDecision t.
Proof. solve_decision. Defined.

#[global] Instance countable : Countable t :=
  inj_countable' (fun p => (root p, parts p)) (fun rp => mk rp.1 rp.2)
    (fun p => match p with mk _ _ => eq_refl end).

(** The text between slashes. *)
Fixpoint segments (cur : string) (s : string) : list string :=
  match s with
  | EmptyString => [cur]
  | String c s' =>
      if Ascii.eqb c "/" then cur :: segments EmptyString s'
      else segments (cur +:+ String c EmptyString) s'
  end.

Definition kept (seg : string) : bool :=
  negb (String.eqb seg EmptyString) && negb (String.eqb seg ".").

Definition root_of (s : string) : string :=
  match s with
  | String "/" (String "/" (String "/" _)) => "/"
  | String "/" (String "/" _) => "//"
  | String "/" _ => "/"
  | _ => EmptyString
  end.

(** [PurePosixPath(s)] *)
Definition parse (s : string) : t :=
  mk (root_of s) (List.filter kept (segments EmptyString s)).

(** [p / s] *)
Definition div (p : t) (s : string) : t :=
  let q := parse s in
  match root q with
  | EmptyString => mk (root p) (parts p ++ parts q)
  | _ => q
  end.

Fixpoint join (ps : list string) : string :=
  match ps with
  | [] => EmptyString
  | [x] => x
  | x :: ps' => x +:+ "/" +:+ join ps'
  end.

(** [str(p)] *)
Definition to_str (p : t) : string :=
  match root p, parts p with
  | EmptyString, [] => "."
  | r, ps => r +:+ join ps
  end.

Fixpoint strip_prefix (pre l : list string) : option (list string) :=
  match pre, l with
  | [], _ => Some l
  | x :: pre', y :: l' => if String.eqb x y then strip_prefix pre' l' else None
  | _ :: _, [] => None
  end.

(** [p.relative_to(other)]; [None] stands for [ValueError]. *)
Definition relative_to (p other : t) : option t :=
  if String.eqb (root p) (root other) then
    match strip_prefix (parts other) (parts p) with
    | Some rest => Some (mk EmptyString rest)
    | None => None
    end
  else None.

Definition is_relative_to (p other : t) : bool :=
  match relative_to p other with Some _ => true | None => false end.

(** [p.name]: the last component. *)
Definition name (p : t) : string := List.last (parts p) EmptyString.

(** Following components from the root: a [..] step goes up one directory
    and stays at the root.  [stack] holds the directories entered so far,
    innermost first. *)
Fixpoint walk (stack : list string) (ps : list string) : list string :=
  match ps with
  | [] => rev stack
  | p :: ps' =>
      if String.eqb p ".." then walk (List.tl stack) ps'
      else walk (p :: stack) ps'
  end.

(** The file a path leads to, as the operating system finds it from the
    working directory [cwd] when no component is a link: a relative path
    starts at [cwd], [..] steps are followed, and the roots ["/"] and
    ["//"] are one directory. *)
Definition resolve (cwd p : t) : t :=
  mk "/" (walk [] (match root p with
                   | EmptyString => parts cwd ++ parts p
                   | _ => parts p
                   end)).

End Path.

(** ** The shard writer *)

Record manifest_entry : Type := mk_entry {
  schema_id : nat;
  table_name : string;
  columns : list string;
  filename : string;
  row_count : nat
}.

#[global] Instance manifest_entry_eq_dec : EqDecision manifest_entry.
Proof. solve_decision. Defined.

(** What has been written to a file, in order: [json.dump] of a record,
    a newline, [json.dump] of the manifest. *)
Inductive written : Type :=
| JsonRecord (r : record)
| Newline
| JsonManifest (m : list manifest_entry).

Definition file : Type := list written.

(** The files as the process sees them: its working directory and the
    content of every file, kept under the path the file resolves to.  Two
    paths name one file exactly when they resolve alike. *)
Record filesystem : Type := mk_fs {
  cwd : Path.t;
  files : gmap Path.t file
}.

Definition locate (fs : filesystem) (p : Path.t) : Path.t :=
  Path.resolve (cwd fs) p.

(** Reading the file at a path, and writing it: [fs !! p] and
    [<[p := content]> fs]. *)
#[global] Instance filesystem_lookup : Lookup Path.t file filesystem :=
  fun p fs => files fs !! locate fs p.

#[global] Instance filesystem_insert : Insert Path.t file filesystem :=
  fun p content fs => mk_fs (cwd fs) (<[locate fs p := content]> (files fs)).

(** No file yet, the working directory at the root. *)
#[global] Instance filesystem_empty : Empty filesystem := mk_fs (Path.mk "/" []) ∅.

#[global] Instance filesystem_singleton : SingletonM Path.t file filesystem :=
  fun p content => <[p := content]> ∅.

(** Python tuple order on tuples of strings: the first difference decides,
    a proper prefix comes first. *)
Fixpoint tuple_le (a b : list string) : bool :=
  match a, b with
  | [], _ => true
  | _ :: _, [] => false
  | x :: a', y :: b' => if String.eqb x y then tuple_le a' b' else String.leb x y
  end.

(** The order of the sort key [(len(item[0]), item[0])]. *)
Definition sort_key_le (k1 k2 : list string) : bool :=
  Nat.ltb (length k1) (length k2)
  || (Nat.eqb (length k1) (length k2) && tuple_le k1 k2).

Definition item_le (i1 i2 : list string * list record) : Prop :=
  sort_key_le i1.1 i2.1 = true.

#[global] Instance item_le_dec : RelDecision item_le.
Proof. intros i1 i2. unfold item_le. apply _. Defined.

(** [sorted(records_by_schema.items(), key=...)].  The keys of a [dict]
    are distinct, so the sort key is distinct for every item. *)
Definition sorted_items (records_by_schema : groups)
  : list (list string * list record) :=
  merge_sort item_le (map_to_list records_by_schema).

Definition decimal (n : nat) : string :=
  NilEmpty.string_of_uint (Nat.to_uint n).

(** [f"{idx:02}"]: decimal, zero-padded to two characters. *)
Definition format_02 (idx : nat) : string :=
  let digits := decimal idx in
  if Nat.ltb (String.length digits) 2 then "0" +:+ digits else digits.

(** The body of [with filename.open("w")]: one JSON object and one newline
    for every record. *)
Definition dump_records (records : list record) : file :=
  flat_map (fun rec => [JsonRecord rec; Newline]) records.

Section ShardWriter.
(** [BASE_DIR], the directory of the script. *)
Variable BASE_DIR : Path.t.
Variable output_dir : Path.t.
Variable table_prefix : string.

Definition shard_table (idx : nat) : string :=
  table_prefix +:+ "_schema_" +:+ format_02 idx.

Definition shard_file (idx : nat) : Path.t :=
  Path.div output_dir (table_prefix +:+ "_schema_" +:+ format_02 idx +:+ ".jsonl").

(** [str(filename.relative_to(BASE_DIR) if
    filename.is_relative_to(BASE_DIR) else filename)] *)
Definition manifest_filename (filename : Path.t) : string :=
  Path.to_str
    (match Path.relative_to filename BASE_DIR with
     | Some rel => rel
     | None => filename
     end).

(** [for idx, (columns, records) in enumerate(sorted_records, start=idx)] *)
Fixpoint write_shards (idx : nat) (sorted_records : list (list string * list record))
    (fs : filesystem) (manifest : list manifest_entry)
  : filesystem * list manifest_entry :=
  match sorted_records with
  | [] => (fs, manifest)
  | (columns, records) :: rest =>
      let filename := shard_file idx in
      let table_name := shard_table idx in
      let fs := <[filename := dump_records records]> fs in
      let manifest :=
        manifest ++ [mk_entry idx table_name columns
                       (manifest_filename filename) (length records)] in
      write_shards (S idx) rest fs manifest
  end.

Definition manifest_path : Path.t :=
  Path.div output_dir (table_prefix +:+ "_schema_manifest.json").

Definition write_jsonl (records_by_schema : groups) (fs : filesystem)
  : filesystem * list manifest_entry :=
  let '(fs, manifest) :=
    write_shards 1 (sorted_items records_by_schema) fs [] in
  (<[manifest_path := [JsonManifest manifest]]> fs, manifest).
End ShardWriter.

(** ** Store sync: the two drivers and the tail of [main] *)

Module Sync.

Inductive target : Type :=
| DuckDB (path : Path.t)
| MotherDuck (db token : string).

(** The three statements the drivers send, kept by their parts rather than
    as SQL text. *)
Inductive statement : Type :=
| DropTableIfExists (table : string)
| CreateTableFromJson (table : string) (file_path : Path.t)
| SelectCount (table : string).

(** What the run does to the outside, in order.  A database call is
    recorded when it is made, whether it then succeeds or raises. *)
Inductive event : Type :=
| Print (text : string)
| Connect (t : target)
| Execute (t : target) (s : statement)
| Close (t : target).

Inductive exn : Type :=
| FileNotFoundError (message : string)
| DatabaseError (call : event).

#[global] Instance target_eq_dec : EqDecision target.
Proof. solve_decision. Defined.
#[global] Instance statement_eq_dec : EqDecision statement.
Proof. solve_decision. Defined.
#[global] Instance event_eq_dec : EqDecision event.
Proof. solve_decision. Defined.
#[global] Instance exn_eq_dec : EqDecision exn.
Proof. solve_decision. Defined.

(** The surroundings of a run: which paths exist, the token read from
    the environment when the module is loaded, which database calls
    raise (given everything that happened before) and what a count
    query returns. *)
Record environment : Type := mk_env {
  path_exists : Path.t -> bool;
  MOTHERDUCK_TOKEN : option string;
  raises : list event -> event -> bool;
  fetch_count : list event -> target -> string -> nat
}.

Inductive outcome (A : Type) : Type :=
| Returned (a : A)
| Raised (e : exn).
Arguments Returned {A} a.
Arguments Raised {A} e.

(** A computation reads the trace so far, extends it and returns or
    raises. *)
Definition M (A : Type) : Type := list event -> list event * outcome A.

Definition ret {A} (a : A) : M A := fun tr => (tr, Returned a).
Definition raise {A} (e : exn) : M A := fun tr => (tr, Raised e).
Definition bind {A B} (m : M A) (k : A -> M B) : M B :=
  fun tr =>
    match m tr with
    | (tr', Returned a) => k a tr'
    | (tr', Raised e) => (tr', Raised e)
    end.

Declare Scope sync_scope.
Delimit Scope sync_scope with sync.
Notation "m ;; k" := (bind m (fun _ => k))
  (at level 100, k at level 200, right associativity) : sync_scope.
Notation "'let*' x ':=' m 'in' k" := (bind m (fun x => k))
  (at level 10, x name, k at level 200) : sync_scope.
Local Open Scope sync_scope.

(** [try: body finally: cleanup] *)
Definition try_finally {A} (body : M A) (cleanup : M unit) : M A :=
  fun tr =>
    match body tr with
    | (tr', result) =>
        match cleanup tr' with
        | (tr'', Returned _) => (tr'', result)
        | (tr'', Raised e) => (tr'', Raised e)
        end
    end.

Definition print (text : string) : M unit :=
  fun tr => (tr ++ [Print text], Returned tt).

Section Drivers.
Variable env : environment.
Variable BASE_DIR : Path.t.

(** A call into the database library. *)
Definition call (e : event) : M unit :=
  fun tr =>
    if raises env tr e then (tr ++ [e], Raised (DatabaseError e))
    else (tr ++ [e], Returned tt).

(** [con.execute("SELECT COUNT(*) ...").fetchone()[0]] *)
Definition count_rows (con : target) (table : string) : M nat :=
  fun tr =>
    match call (Execute con (SelectCount table)) tr with
    | (tr', Returned _) => (tr', Returned (fetch_count env tr con table))
    | (tr', Raised e) => (tr', Raised e)
    end.

(** The body of [for entry in manifest], shared by both drivers but
    for the text of the report. *)
Definition load_entry (con : target) (report : string) (entry : manifest_entry)
  : M unit :=
  let table_name := table_name entry in
  let file_path := Path.div BASE_DIR (filename entry) in
  call (Execute con (DropTableIfExists table_name)) ;;
  call (Execute con (CreateTableFromJson table_name file_path)) ;;
  let* row_count := count_rows con table_name in
  print (report +:+ table_name +:+ ": " +:+ decimal row_count +:+ " row(s) loaded.").

Fixpoint load_entries (con : target) (report : string)
    (manifest : list manifest_entry) : M unit :=
  match manifest with
  | [] => ret tt
  | entry :: rest =>
      load_entry con report entry ;; load_entries con report rest
  end.

Definition rebuild_duckdb_tables (manifest : list manifest_entry)
    (duckdb_path : option Path.t) (table_prefix : string) (skip : bool)
  : M unit :=
  if skip then print "Skipping DuckDB load (flag set)."
  else
    match duckdb_path with
    | None => print "Skipping DuckDB load (no database path provided)."
    | Some duckdb_path =>
        if negb (path_exists env duckdb_path) then
          raise (FileNotFoundError
            "DuckDB database not found. Please run load_data_to_duckdb.py first.")
        else
          let con := DuckDB duckdb_path in
          call (Connect con) ;;
          try_finally
            (call (Execute con (DropTableIfExists table_prefix)) ;;
             load_entries con EmptyString manifest)
            (call (Close con))
    end.

Definition truthy (s : string) : bool :=
  match s with EmptyString => false | _ => true end.

Definition load_into_motherduck (manifest : list manifest_entry)
    (table_prefix : string) (motherduck_db : string) (skip : bool)
  : M unit :=
  if skip then print "Skipping MotherDuck load (flag set)."
  else
    match MOTHERDUCK_TOKEN env with
    | Some (String c tok) =>
        let token := String c tok in
        if negb (truthy motherduck_db) then
          print "Skipping MotherDuck load (database name not provided)."
        else
          print ("Connecting to MotherDuck database: " +:+ motherduck_db) ;;
          let con := MotherDuck motherduck_db token in
          call (Connect con) ;;
          try_finally
            (call (Execute con (DropTableIfExists table_prefix)) ;;
             load_entries con "[MotherDuck] " manifest)
            (call (Close con) ;; print "MotherDuck load complete.")
    | _ => print "Skipping MotherDuck load (MOTHERDUCK_TOKEN not set)."
    end.

(** The last two statements of [main]. *)
Definition sync (manifest : list manifest_entry) (duckdb_path : option Path.t)
    (table_prefix : string) (skip_duckdb : bool) (motherduck_db : string)
    (skip_motherduck : bool) : M unit :=
  rebuild_duckdb_tables manifest duckdb_path table_prefix skip_duckdb ;;
  load_into_motherduck manifest table_prefix motherduck_db skip_motherduck.
End Drivers.

End Sync.

(** ** [main] *)




(** ** Notions used to state the properties *)

(** A non-empty run of decimal digits. *)
Definition decimal_numeral (s : string) : Prop :=
  s <> EmptyString /\ Py.all_chars Py.isdecimal s = true.

(** Decimal digits, at least one, around exactly one point. *)
Definition point_numeral (s : string) : Prop :=
  Py.count "." s = 1 /\ decimal_numeral (Py.remove_first "." s).

(** Digits without a point are coerced to an integer, as C8 words it. *)
Definition digits_give_integer (raw : string) : Prop :=
  decimal_numeral (unquote raw) -> exists n, normalize_value raw = VInt n.

(** A numeral of one digit more than [int] converts. *)
Definition long_numeral : string :=
  string_of_list_ascii (repeat "1"%char (S Py.MAX_STR_DIGITS)).

(** ["abc"] between double quotes. *)
Definition quoted (s : string) : string :=
  String dquote (s +:+ String dquote EmptyString).

(** The field order of an ordered dictionary as keys are assigned one by
    one: a key that is new goes to the end, a key already present keeps
    its place. *)
Definition add_key (seen : list string) (k : string) : list string :=
  if bool_decide (k ∈ seen) then seen else seen ++ [k].

Definition first_seen (seen : list string) (ks : list string) : list string :=
  fold_left add_key ks seen.

(** The keys assigned by the [key=value] tokens of a tail, in order. *)
Definition tail_keys (tokens : list string) : list string :=
  map (fun token => (Py.partition "=" token).1)
      (List.filter (Py.contains "=") tokens).

(** The first four fields hold the positional tokens, as C6 words it. *)
Definition leading_fields_positional (line : string) : Prop :=
  forall p0 p1 p2 p3 p4 p5 rest,
    Py.split line = p0 :: p1 :: p2 :: p3 :: p4 :: p5 :: rest ->
    exists rec more,
      parse_line line = Some rec
      /\ rec = [("timestamp", VStr (p0 +:+ " " +:+ p1)); ("message_type", VStr p2);
                ("service", VStr p3); ("action", VStr p4)] ++ more.

(** A key assigned more than once in the tail holds, in the parsed record,
    the normalised value of its later assignment, as C10 words it.  [token]
    is the last assignment to its key, [before] holds an earlier one, and
    [raw] is the value the scan has for the key from [token] on. *)
Definition tail_value_kept (line : string) : Prop :=
  forall p0 p1 p2 p3 p4 p5 rest before token after raw,
    Py.split line = p0 :: p1 :: p2 :: p3 :: p4 :: p5 :: rest ->
    p5 :: rest = before ++ token :: after ->
    Py.contains "=" token = true ->
    (Py.partition "=" token).1 ∈ tail_keys before ->
    (Py.partition "=" token).1 ∉ tail_keys after ->
    OrderedDict.get (Py.partition "=" token).1 (scan_payload (token :: after)).1
    = Some raw ->
    exists rec,
      parse_line line = Some rec
      /\ OrderedDict.get (Py.partition "=" token).1 rec = Some (normalize_value raw).

(** [current_key], once set, names a key of the payload: the lookup in
    [payload[current_key] += ...] cannot fail. *)
Definition scan_ok (st : scan_state) : Prop :=
  forall k, st.2 = Some k -> k ∈ OrderedDict.keys st.1.

(** The record [parse_line] starts from, before the payload is copied in. *)
Definition base_record (p0 p1 p2 p3 p4 : string) : record :=
  [("timestamp", VStr (p0 +:+ " " +:+ p1)); ("message_type", VStr p2);
   ("service", VStr p3); ("action", VStr p4)].

(** The severity field directly follows the issue field, as C2 words it. *)
Definition severity_follows_issue (line : string) : Prop :=
  forall filled issue group1,
    payload_record line = Some filled ->
    OrderedDict.get "issue" filled = Some (VStr issue) ->
    Re.search issue = Some group1 ->
    exists rec before after,
      parse_line line = Some rec
      /\ rec = before ++ [("issue", VStr (clean_issue issue));
                          ("severity", VStr (Py.strip group1))] ++ after.

(** A continuation token is appended to the value of the pending key, as
    C7 words it. *)
Definition continuation_appended (key value token : string) : Prop :=
  scan_token ([(key, value)], Some key) token
  = ([(key, value +:+ " " +:+ token)], Some key).

(** The records of the lines that parse, in arrival order. *)
Definition parsed (lines : list string) : list record := omap parse_line lines.

(** The group of a schema key: empty when the key is absent. *)
Definition group (records_by_schema : groups) (key : list string) : list record :=
  default [] (records_by_schema !! key).

(** All records of a mapping, group after group. *)
Definition all_records (records_by_schema : groups) : list record :=
  concat (map_to_list records_by_schema).*2.

(** The manifest entry of the item at position [i] (from 0) of the sorted
    items. *)
Definition entry_of (BASE_DIR output_dir : Path.t) (table_prefix : string)
    (i : nat) (item : list string * list record) : manifest_entry :=
  mk_entry (S i) (shard_table table_prefix (S i)) item.1
    (manifest_filename BASE_DIR (shard_file output_dir table_prefix (S i)))
    (length item.2).

(** The records and the number of lines of a written file. *)
Fixpoint file_records (f : file) : list record :=
  match f with
  | [] => []
  | JsonRecord rec :: f' => rec :: file_records f'
  | _ :: f' => file_records f'
  end.

Fixpoint file_lines (f : file) : nat :=
  match f with
  | [] => 0
  | Newline :: f' => S (file_lines f')
  | _ :: f' => file_lines f'
  end.

(** The shard file of a manifest entry, as found in a file system. *)
Definition shard_of (output_dir : Path.t) (table_prefix : string)
    (fs : filesystem) (entry : manifest_entry) : file :=
  default [] (fs !! shard_file output_dir table_prefix (schema_id entry)).

(** The text after the last slash. *)
Definition last_segment (s : string) : string :=
  List.last (Path.segments EmptyString s) EmptyString.

(** Reading a decimal numeral back. *)
Definition read_decimal (s : string) : option nat :=
  Nat.of_uint <$> NilEmpty.uint_of_string s.

(** Every manifest entry names its file [table_name.jsonl], as C3 words
    it. *)
Definition filename_is_table_name (manifest : list manifest_entry) : Prop :=
  forall entry, entry ∈ manifest ->
    filename entry = table_name entry +:+ ".jsonl".

(** Events on the remote store and on the local store. *)
Definition on_motherduck (e : Sync.event) : bool :=
  match e with
  | Sync.Connect (Sync.MotherDuck _ _)
  | Sync.Execute (Sync.MotherDuck _ _) _
  | Sync.Close (Sync.MotherDuck _ _) => true
  | _ => false
  end.

Definition on_duckdb (e : Sync.event) : bool :=
  match e with
  | Sync.Connect (Sync.DuckDB _)
  | Sync.Execute (Sync.DuckDB _) _
  | Sync.Close (Sync.DuckDB _) => true
  | _ => false
  end.

(** The remote driver was attempted: the run connected to the remote
    store. *)
Definition remote_attempted (trace : list Sync.event) : Prop :=
  exists db token, Sync.Connect (Sync.MotherDuck db token) ∈ trace.

(** A failure of the local driver does not keep the remote driver from
    being attempted, as C1 words it: with a token and a database name and
    nothing skipped, the run connects to the remote store. *)
Definition drivers_isolated (env : Sync.environment) (BASE_DIR : Path.t)
    (manifest : list manifest_entry) (duckdb_path : Path.t)
    (table_prefix motherduck_db : string) : Prop :=
  (exists token, Sync.MOTHERDUCK_TOKEN env = Some token /\ token <> EmptyString) ->
  motherduck_db <> EmptyString ->
  remote_attempted
    (Sync.sync env BASE_DIR manifest (Some duckdb_path) table_prefix false
       motherduck_db false []).1.

(** A computation only appends to the trace, and what it appends
    satisfies [P]. *)
Definition adds {A} (P : Sync.event -> bool) (m : Sync.M A) : Prop :=
  forall trace, exists added,
    (m trace).1 = trace ++ added /\ forallb P added = true.

Definition not_on (store : Sync.event -> bool) (e : Sync.event) : bool :=
  negb (store e).

(** Two surroundings in which the local driver fails: the database file
    is missing; the file is there but every bulk load raises. *)
Definition env_no_database : Sync.environment :=
  Sync.mk_env (fun _ => false) (Some "secret") (fun _ _ => false) (fun _ _ _ => 0).

Definition env_failing_load : Sync.environment :=
  Sync.mk_env (fun _ => true) (Some "secret")
    (fun _ e =>
       match e with
       | Sync.Execute (Sync.DuckDB _) (Sync.CreateTableFromJson _ _) => true
       | _ => false
       end)
    (fun _ _ _ => 0).

Definition one_shard : list manifest_entry :=
  [mk_entry 1 "ops_schema_01" (BASE_COLUMNS ++ ["user"])
     "logs/out/ops_schema_01.jsonl" 1].

(** ** Notions used to state further properties of the sync drivers *)

(** The table a bulk load is issued for, and the tables of a trace for which
    one was issued, in order. *)
Definition load_of (e : Sync.event) : option string :=
  match e with
  | Sync.Execute _ (Sync.CreateTableFromJson table _) => Some table
  | _ => None
  end.

Definition loads (trace : list Sync.event) : list string := omap load_of trace.

Definition statement_or_print (e : Sync.event) : bool :=
  match e with
  | Sync.Execute _ _ | Sync.Print _ => true
  | _ => false
  end.

(** Every bulk load of a trace directly follows the drop of the same table
    on the same connection; [previous] is the event before the trace. *)
Fixpoint drops_first (previous : option Sync.event) (trace : list Sync.event) : bool :=
  match trace with
  | [] => true
  | e :: trace' =>
      match e with
      | Sync.Execute con (Sync.CreateTableFromJson table _) =>
          bool_decide (previous = Some (Sync.Execute con (Sync.DropTableIfExists table)))
      | _ => true
      end && drops_first (Some e) trace'
  end.

(** Surroundings in which every path exists and no database call raises. *)
Definition env_quiet : Sync.environment :=
  Sync.mk_env (fun _ => true) (Some "secret") (fun _ _ => false) (fun _ _ _ => 1).

(** ** Notions used to state further properties of the parser *)

(** No whitespace at either end. *)
Definition trimmed (s : string) : Prop :=
  match Py.head s with Some c => Py.isspace c = false | None => True end
  /\ match Py.last s with Some c => Py.isspace c = false | None => True end.

(** A value and the tokens that continue it, joined by single spaces. *)
Definition join_continued (value : string) (tokens : list string) : string :=
  fold_left (fun acc token => acc +:+ " " +:+ token) tokens value.

Definition no_equals (token : string) : Prop := Py.contains "=" token = false.

(** ** Notions used to state further properties of paths *)



(** ** Notions used to state properties of the whole run *)


(** * Properties *)

(** ** Value normalisation *)

Section NormalizeValue.

Lemma isdecimal_isdigit c : Py.isdecimal c = true -> Py.isdigit_char c = true.
Proof. unfold Py.isdigit_char. intros ->. reflexivity. Qed.

Lemma isdecimal_not_point c : Py.isdecimal c = true -> Ascii.eqb c "." = false.
Proof.
  destruct (Ascii.eqb_spec c ".") as [->|]; [|done].
  vm_compute. discriminate.
Qed.

Lemma all_decimal_all_digit s :
  Py.all_chars Py.isdecimal s = true -> Py.all_chars Py.isdigit_char s = true.
Proof.
  induction s as [|c s IH]; simpl; [done|].
  intros [Hc Hs]%andb_true_iff. rewrite (isdecimal_isdigit _ Hc). auto.
Qed.

Lemma all_decimal_no_point s :
  Py.all_chars Py.isdecimal s = true ->
  Py.contains "." s = false /\ Py.count "." s = 0 /\ Py.remove_first "." s = s.
Proof.
  induction s as [|c s IH]; simpl; [done|].
  intros [Hc Hs]%andb_true_iff. rewrite (isdecimal_not_point _ Hc).
  destruct (IH Hs) as (-> & -> & ->). done.
Qed.

Lemma contains_count c s : Py.contains c s = false <-> Py.count c s = 0.
Proof.
  induction s as [|a s IH]; simpl; [done|].
  destruct (Ascii.eqb a c); simpl; [split; [done|lia]|done].
Qed.

Lemma remove_first_absent c s : Py.contains c s = false -> Py.remove_first c s = s.
Proof.
  induction s as [|a s IH]; simpl; [done|].
  destruct (Ascii.eqb a c); simpl; [done|]. intros ?. f_equal. auto.
Qed.

Lemma isdigit_nonempty s : Py.isdigit s = true -> s <> EmptyString.
Proof. by destruct s. Qed.

Lemma isdigit_all s : Py.isdigit s = true -> Py.all_chars Py.isdigit_char s = true.
Proof. by destruct s. Qed.

Lemma isdigit_intro s :
  s <> EmptyString -> Py.all_chars Py.isdigit_char s = true -> Py.isdigit s = true.
Proof. by destruct s. Qed.

Lemma int_decimal s :
  Py.int s = if Py.isdigit s && Py.all_chars Py.isdecimal s
                && Nat.leb (String.length s) Py.MAX_STR_DIGITS
             then Some (Py.int_from 0%Z s) else None.
Proof.
  destruct s as [|c s]; [done|]. unfold Py.int, Py.isdigit.
  destruct (Py.all_chars Py.isdecimal (String c s)) eqn:E;
    [|by rewrite andb_false_r].
  by rewrite (all_decimal_all_digit _ E).
Qed.

Lemma normalize_digits raw :
  decimal_numeral (unquote raw) ->
  normalize_value raw =
  if Nat.leb (String.length (unquote raw)) Py.MAX_STR_DIGITS
  then VInt (Py.int_from 0%Z (unquote raw)) else VStr (unquote raw).
Proof.
  intros [Hne Hall]. unfold normalize_value.
  destruct (all_decimal_no_point _ Hall) as (Hc & Hn & Hr).
  rewrite Hr, Hn, Hc, int_decimal, Hall.
  rewrite (isdigit_intro _ Hne (all_decimal_all_digit _ Hall)).
  change (true && (0 <=? 1)) with true. change (negb false) with true.
  cbv iota. rewrite !andb_true_l.
  by destruct (Nat.leb _ _).
Qed.

Lemma normalize_decimal raw :
  decimal_numeral (unquote raw) ->
  String.length (unquote raw) <= Py.MAX_STR_DIGITS ->
  normalize_value raw = VInt (Py.int_from 0%Z (unquote raw)).
Proof.
  intros Hd Hlen. rewrite (normalize_digits _ Hd).
  apply Nat.leb_le in Hlen. by rewrite Hlen.
Qed.

Lemma normalize_long raw :
  decimal_numeral (unquote raw) ->
  Py.MAX_STR_DIGITS < String.length (unquote raw) ->
  normalize_value raw = VStr (unquote raw).
Proof.
  intros Hd Hlen. rewrite (normalize_digits _ Hd).
  apply Nat.leb_gt in Hlen. by rewrite Hlen.
Qed.

Lemma normalize_point raw :
  point_numeral (unquote raw) -> normalize_value raw = VFloat (unquote raw).
Proof.
  intros (Hn & Hne & Hall). unfold normalize_value, Py.float.
  rewrite Hn, Hall, (isdigit_intro _ Hne (all_decimal_all_digit _ Hall)). simpl.
  destruct (Py.contains "." (unquote raw)) eqn:Hc; [done|].
  apply contains_count in Hc. congruence.
Qed.

Lemma normalize_other raw :
  ~ decimal_numeral (unquote raw) -> ~ point_numeral (unquote raw) ->
  normalize_value raw = VStr (unquote raw).
Proof.
  intros Hd Hp. unfold normalize_value.
  destruct (Py.isdigit _ && _) eqn:Hg; [|done].
  apply andb_true_iff in Hg as [Hdig Hcnt%Nat.leb_le].
  destruct (Py.contains "." (unquote raw)) eqn:Hc; simpl.
  - unfold Py.float. rewrite Hdig. simpl.
    destruct (Py.all_chars Py.isdecimal _) eqn:Hall; [|done].
    destruct Hp. split; [|split; [by apply isdigit_nonempty|done]].
    destruct (Py.count "." (unquote raw)) as [|[|n]] eqn:Hn; [|done|lia].
    apply contains_count in Hn. congruence.
  - rewrite (remove_first_absent _ _ Hc) in Hdig. rewrite int_decimal, Hdig.
    rewrite andb_true_l.
    destruct (Py.all_chars Py.isdecimal _) eqn:Hall; [|done].
    destruct Hd. split; [by apply isdigit_nonempty|done].
Qed.

Lemma rstrip_last s c :
  Py.isspace c = false ->
  Py.rstrip (s +:+ String c EmptyString) = s +:+ String c EmptyString.
Proof.
  intros Hc. induction s as [|x s IH]; [by simpl; rewrite Hc|].
  change (String x s +:+ String c EmptyString)
    with (String x (s +:+ String c EmptyString)).
  simpl. rewrite IH. by destruct s.
Qed.

Lemma last_snoc s c : Py.last (s +:+ String c EmptyString) = Some c.
Proof.
  induction s as [|x s IH]; [done|].
  change (String x s +:+ String c EmptyString)
    with (String x (s +:+ String c EmptyString)).
  simpl. rewrite IH. by destruct s.
Qed.

Lemma init_snoc s c : Py.init (s +:+ String c EmptyString) = s.
Proof.
  induction s as [|x s IH]; [done|].
  change (String x s +:+ String c EmptyString)
    with (String x (s +:+ String c EmptyString)).
  simpl. rewrite IH. by destruct s.
Qed.

Lemma quoted_snoc s : quoted s = String dquote s +:+ String dquote EmptyString.
Proof. reflexivity. Qed.

Lemma strip_quoted s : Py.strip (quoted s) = quoted s.
Proof.
  unfold Py.strip.
  replace (Py.lstrip (quoted s)) with (quoted s) by reflexivity.
  rewrite quoted_snoc. by apply rstrip_last.
Qed.

Lemma unquote_quoted s : unquote (quoted s) = s.
Proof.
  unfold unquote. rewrite strip_quoted.
  replace (Py.startswith_char dquote (quoted s)) with true by reflexivity.
  unfold Py.endswith_char. rewrite quoted_snoc, last_snoc.
  replace (Ascii.eqb dquote dquote) with true by reflexivity.
  change (Py.tail (String dquote s +:+ String dquote EmptyString))
    with (s +:+ String dquote EmptyString).
  apply init_snoc.
Qed.

(** C8, as worded, fails: a run of 4301 decimal digits is numeric and has no
    point, but [int] refuses it, the error is caught and the text stays a
    string. *)
Lemma long_numeral_stays_text : ~ digits_give_integer long_numeral.
Proof.
  intros H. destruct H as [n Hn].
  - split; [by vm_compute|by vm_compute].
  - vm_compute in Hn. discriminate Hn.
Qed.

(** C8, amended. Normalisation strips surrounding whitespace and one pair of
    surrounding double quotes; what is left becomes an integer when it is a
    non-empty run of decimal digits, no more than 4300 of them, stays a
    string when it is a longer run of decimal digits, becomes a float when
    it is decimal digits around exactly one point, and stays a string in
    every other case.  In particular "42" gives the integer 42, "3.14" the
    float 3.14, "abc" the string "abc" and "abc" between double quotes the
    string "abc". *)
Theorem normalize_value_coercion :
  (forall raw : string,
     (decimal_numeral (unquote raw) ->
      String.length (unquote raw) <= Py.MAX_STR_DIGITS ->
      normalize_value raw = VInt (Py.int_from 0%Z (unquote raw)))
     /\ (decimal_numeral (unquote raw) ->
         Py.MAX_STR_DIGITS < String.length (unquote raw) ->
         normalize_value raw = VStr (unquote raw))
     /\ (point_numeral (unquote raw) ->
         normalize_value raw = VFloat (unquote raw))
     /\ (~ decimal_numeral (unquote raw) -> ~ point_numeral (unquote raw) ->
         normalize_value raw = VStr (unquote raw)))
  /\ (forall s : string, unquote (quoted s) = s)
  /\ normalize_value "42" = VInt 42
  /\ normalize_value "3.14" = VFloat "3.14"
  /\ normalize_value "abc" = VStr "abc"
  /\ normalize_value (quoted "abc") = VStr "abc".
Proof.
  split; [|split; [apply unquote_quoted|by vm_compute]].
  intros raw. split; [apply normalize_decimal|].
  split; [apply normalize_long|].
  split; [apply normalize_point|apply normalize_other].
Qed.

Lemma normalize_value_coercion_witness :
  (decimal_numeral (unquote " 007 ") /\ normalize_value " 007 " = VInt 7)
  /\ (decimal_numeral (unquote long_numeral)
      /\ normalize_value long_numeral = VStr (unquote long_numeral))
  /\ (point_numeral (unquote (quoted "2.50"))
      /\ normalize_value (quoted "2.50") = VFloat "2.50")
  /\ (~ decimal_numeral (unquote "1.2.3") /\ ~ point_numeral (unquote "1.2.3")
      /\ normalize_value "1.2.3" = VStr "1.2.3").
Proof.
  assert (Hd : decimal_numeral (unquote " 007 "))
    by (split; [discriminate|reflexivity]).
  assert (Hl : decimal_numeral (unquote long_numeral))
    by (split; [by vm_compute|by vm_compute]).
  assert (Hp : point_numeral (unquote (quoted "2.50")))
    by (split; [reflexivity|split; [discriminate|reflexivity]]).
  assert (Hn1 : ~ decimal_numeral (unquote "1.2.3"))
    by (intros [_ H]; discriminate H).
  assert (Hn2 : ~ point_numeral (unquote "1.2.3"))
    by (intros [H _]; discriminate H).
  split; [split; [exact Hd|]|split; [split; [exact Hl|]|
    split; [split; [exact Hp|]|split; [exact Hn1|split; [exact Hn2|]]]]].
  - apply (proj1 (proj1 normalize_value_coercion " 007 ") Hd).
    apply Nat.leb_le. by vm_compute.
  - apply (proj1 (proj2 (proj1 normalize_value_coercion long_numeral)) Hl).
    apply Nat.ltb_lt. by vm_compute.
  - exact (proj1 (proj2 (proj2 (proj1 normalize_value_coercion (quoted "2.50")))) Hp).
  - exact (proj2 (proj2 (proj2 (proj1 normalize_value_coercion "1.2.3"))) Hn1 Hn2).
Defined.

End NormalizeValue.

(** ** Strings *)

Section Strings.

Lemma app_cons c s t : String c s +:+ t = String c (s +:+ t).
Proof. reflexivity. Qed.

Lemma app_empty_l s : EmptyString +:+ s = s.
Proof. reflexivity. Qed.

Lemma app_empty_r s : s +:+ EmptyString = s.
Proof. induction s as [|c s IH]; [done|]. by rewrite app_cons, IH. Qed.

Lemma app_assoc_str a b c : (a +:+ b) +:+ c = a +:+ (b +:+ c).
Proof. induction a as [|x a IH]; [done|]. by rewrite !app_cons, IH. Qed.

Lemma split_from_spaces tok s :
  Py.all_chars Py.isspace s = true -> Py.split_from tok s = Py.flush tok.
Proof.
  revert tok. induction s as [|c s IH]; intros tok; simpl; [done|].
  intros [-> Hs]%andb_true_iff. rewrite (IH _ Hs). simpl. apply app_nil_r.
Qed.

Lemma rstrip_empty s :
  Py.rstrip s = EmptyString -> Py.all_chars Py.isspace s = true.
Proof.
  induction s as [|c s IH]; simpl; [done|].
  destruct (Py.rstrip s); [|done].
  destruct (Py.isspace c); [auto|done].
Qed.

Lemma split_from_rstrip tok s :
  Py.split_from tok (Py.rstrip s) = Py.split_from tok s.
Proof.
  revert tok. induction s as [|c s IH]; intros tok; simpl; [done|].
  destruct (Py.rstrip s) as [|k ks] eqn:E.
  - apply rstrip_empty in E.
    destruct (Py.isspace c) eqn:Hc; simpl; rewrite ?Hc.
    + rewrite split_from_spaces by done. simpl. by rewrite app_nil_r.
    + by rewrite split_from_spaces.
  - simpl. destruct (Py.isspace c); by rewrite <- IH.
Qed.

Lemma split_lstrip s : Py.split (Py.lstrip s) = Py.split s.
Proof.
  unfold Py.split. induction s as [|c s IH]; simpl; [done|].
  destruct (Py.isspace c) eqn:Hc; [done|]. simpl. by rewrite Hc.
Qed.

Lemma split_strip s : Py.split (Py.strip s) = Py.split s.
Proof.
  unfold Py.strip, Py.split at 1. rewrite split_from_rstrip. apply split_lstrip.
Qed.

End Strings.

(** ** Ordered dictionaries *)

Section OrderedDictFacts.
Context {V : Type}.
Implicit Types (d : list (string * V)) (k : string) (v : V).

Lemma add_key_present seen k : k ∈ seen -> add_key seen k = seen.
Proof. intros. unfold add_key. by rewrite bool_decide_eq_true_2. Qed.

Lemma add_key_fresh seen k : k ∉ seen -> add_key seen k = seen ++ [k].
Proof. intros. unfold add_key. by rewrite bool_decide_eq_false_2. Qed.

Lemma add_key_cons x seen k :
  add_key (x :: seen) k = if String.eqb k x then x :: seen else x :: add_key seen k.
Proof.
  unfold add_key. destruct (String.eqb_spec k x) as [->|Hne].
  - rewrite bool_decide_eq_true_2; [done|left].
  - destruct (decide (k ∈ seen)).
    + rewrite !bool_decide_eq_true_2; [done|done|by right].
    + rewrite !bool_decide_eq_false_2; [done|done|].
      by intros [?|?]%elem_of_cons.
Qed.

Lemma keys_set k v d :
  OrderedDict.keys (OrderedDict.set k v d) = add_key (OrderedDict.keys d) k.
Proof.
  induction d as [|[k' v'] d IH]; simpl; [done|].
  rewrite add_key_cons. destruct (String.eqb k k') eqn:E; simpl.
  - apply String.eqb_eq in E as ->. done.
  - by rewrite IH.
Qed.

Lemma get_set_eq k v d : OrderedDict.get k (OrderedDict.set k v d) = Some v.
Proof.
  induction d as [|[k' v'] d IH]; simpl.
  - by rewrite String.eqb_refl.
  - destruct (String.eqb k k') eqn:E; simpl; [by rewrite String.eqb_refl|].
    by rewrite E.
Qed.

Lemma get_set_ne k k' v d :
  k <> k' -> OrderedDict.get k' (OrderedDict.set k v d) = OrderedDict.get k' d.
Proof.
  intros Hne. induction d as [|[k0 v0] d IH]; simpl.
  - by rewrite (proj2 (String.eqb_neq k' k)).
  - destruct (String.eqb k k0) eqn:E; simpl.
    + apply String.eqb_eq in E as <-. by rewrite (proj2 (String.eqb_neq k' k)).
    + by rewrite IH.
Qed.

Lemma get_None k d : OrderedDict.get k d = None <-> k ∉ OrderedDict.keys d.
Proof.
  induction d as [|[k' v'] d IH]; simpl.
  - split; [intros _; apply not_elem_of_nil|done].
  - destruct (String.eqb_spec k k') as [->|Hne].
    + split; [done|]. intros []. left.
    + rewrite IH. split; [|intros H ?; apply H; by right].
      by intros ? [?|?]%elem_of_cons.
Qed.

Lemma get_Some_key k v d : OrderedDict.get k d = Some v -> k ∈ OrderedDict.keys d.
Proof.
  intros H. destruct (decide (k ∈ OrderedDict.keys d)) as [|Hn]; [done|].
  apply get_None in Hn. congruence.
Qed.

Lemma get_lookup d i k v :
  OrderedDict.keys d !! i = Some k -> NoDup (OrderedDict.keys d) ->
  OrderedDict.get k d = Some v -> d !! i = Some (k, v).
Proof.
  revert i. induction d as [|[k' v'] d IH]; intros i; simpl; [done|].
  intros Hi Hnd%NoDup_cons. destruct Hnd as [Hk' Hnd].
  destruct i as [|i]; simpl in *.
  - injection Hi as ->. rewrite String.eqb_refl. by intros [= ->].
  - destruct (String.eqb_spec k k') as [->|Hne]; [|by apply IH].
    destruct Hk'. by eapply list_elem_of_lookup_2.
Qed.

Lemma add_key_NoDup seen k : NoDup seen -> NoDup (add_key seen k).
Proof.
  intros H. unfold add_key. case_bool_decide; [done|].
  apply NoDup_app. split_and!; [done| |apply NoDup_singleton].
  intros x Hx ->%list_elem_of_singleton. done.
Qed.

Lemma first_seen_NoDup seen ks : NoDup seen -> NoDup (first_seen seen ks).
Proof.
  revert seen. induction ks as [|k ks IH]; intros seen H; simpl; [done|].
  apply IH, add_key_NoDup, H.
Qed.

Lemma first_seen_snoc seen ks k :
  first_seen seen (ks ++ [k]) = add_key (first_seen seen ks) k.
Proof. unfold first_seen. by rewrite fold_left_app. Qed.

Lemma elem_of_add_key seen k x : x ∈ add_key seen k <-> x ∈ seen \/ x = k.
Proof.
  unfold add_key. case_bool_decide.
  - split; [auto|]. by intros [?| ->].
  - rewrite elem_of_app, list_elem_of_singleton. done.
Qed.

Lemma elem_of_first_seen seen ks x :
  x ∈ first_seen seen ks <-> x ∈ seen \/ x ∈ ks.
Proof.
  revert seen. induction ks as [|k ks IH]; intros seen; simpl.
  - split; [auto|]. intros [?|?%elem_of_nil]; done.
  - rewrite IH, elem_of_add_key, elem_of_cons. intuition congruence.
Qed.

Lemma first_seen_prefix seen ks : seen `prefix_of` first_seen seen ks.
Proof.
  revert seen. induction ks as [|k ks IH]; intros seen; simpl; [done|].
  etrans; [|apply IH]. unfold add_key. case_bool_decide; [done|].
  by apply prefix_app_r.
Qed.

Lemma first_seen_idem seen ks :
  first_seen seen (first_seen [] ks) = first_seen seen ks.
Proof.
  induction ks as [|k ks IH] using rev_ind; [done|].
  rewrite !first_seen_snoc. destruct (decide (k ∈ first_seen [] ks)) as [Hin|Hout].
  - rewrite (add_key_present _ _ Hin), IH.
    symmetry. apply add_key_present. apply elem_of_first_seen. right.
    apply elem_of_first_seen in Hin as [?%elem_of_nil|?]; done.
  - rewrite (add_key_fresh _ _ Hout), first_seen_snoc. by rewrite IH.
Qed.

End OrderedDictFacts.

(** ** The payload scan and the record it fills *)

Section Parser.

Implicit Types (payload : list (string * string)) (rec : record).

Lemma tail_keys_cons token tokens :
  tail_keys (token :: tokens) =
  if Py.contains "=" token then (Py.partition "=" token).1 :: tail_keys tokens
  else tail_keys tokens.
Proof. unfold tail_keys. simpl. by destruct (Py.contains "=" token). Qed.

Lemma scan_token_ok st token : scan_ok st -> scan_ok (scan_token st token).
Proof.
  destruct st as [payload cur]. unfold scan_ok, scan_token. simpl. intros Hok.
  destruct (Py.contains "=" token).
  - destruct (Py.partition "=" token) as [key value]. simpl.
    intros k [= <-]. rewrite keys_set. apply elem_of_add_key. by right.
  - destruct cur as [[|c k']|]; simpl; [done| |done].
    destruct (OrderedDict.get _ payload); simpl; [|done].
    intros k [= <-]. rewrite keys_set. apply elem_of_add_key. by right.
Qed.

Lemma scan_fold_ok tokens st : scan_ok st -> scan_ok (fold_left scan_token tokens st).
Proof.
  revert st. induction tokens as [|token tokens IH]; intros st Hst; simpl; [done|].
  apply IH. by apply scan_token_ok.
Qed.

Lemma scan_payload_ok tokens : scan_ok (scan_payload tokens).
Proof. apply scan_fold_ok. intros k Hk. discriminate Hk. Qed.

Lemma scan_token_keys st token :
  OrderedDict.keys (scan_token st token).1 =
  if Py.contains "=" token
  then add_key (OrderedDict.keys st.1) (Py.partition "=" token).1
  else OrderedDict.keys st.1.
Proof.
  destruct st as [payload cur]. unfold scan_token. simpl.
  destruct (Py.contains "=" token).
  - destruct (Py.partition "=" token) as [key value]. simpl. apply keys_set.
  - destruct cur as [[|c k']|]; simpl; [done| |done].
    destruct (OrderedDict.get _ payload) eqn:E; simpl; [|done].
    rewrite keys_set. apply add_key_present. by eapply get_Some_key.
Qed.

Lemma scan_keys tokens st :
  OrderedDict.keys (fold_left scan_token tokens st).1 =
  first_seen (OrderedDict.keys st.1) (tail_keys tokens).
Proof.
  revert st. induction tokens as [|token tokens IH]; intros st; simpl; [done|].
  rewrite IH, scan_token_keys, tail_keys_cons.
  by destruct (Py.contains "=" token).
Qed.

Lemma scan_payload_keys tokens :
  OrderedDict.keys (scan_payload tokens).1 = first_seen [] (tail_keys tokens).
Proof. apply scan_keys. Qed.

Lemma scan_payload_NoDup tokens : NoDup (OrderedDict.keys (scan_payload tokens).1).
Proof. rewrite scan_payload_keys. apply first_seen_NoDup, NoDup_nil_2. Qed.

(** The value of a key and [current_key] evolve on their own: two scan
    states that agree on them still agree after a token. *)
Lemma scan_token_agree k st1 st2 token :
  OrderedDict.get k st1.1 = OrderedDict.get k st2.1 -> st1.2 = st2.2 ->
  OrderedDict.get k (scan_token st1 token).1 = OrderedDict.get k (scan_token st2 token).1
  /\ (scan_token st1 token).2 = (scan_token st2 token).2.
Proof.
  destruct st1 as [pl1 cur1], st2 as [pl2 cur2]. simpl. intros Hk <-.
  unfold scan_token. destruct (Py.contains "=" token).
  - destruct (Py.partition "=" token) as [key value]. simpl. split; [|done].
    destruct (decide (key = k)) as [->|Hne].
    + by rewrite !get_set_eq.
    + by rewrite !get_set_ne.
  - destruct cur1 as [[|c k']|]; simpl; [done| |done].
    destruct (decide (String c k' = k)) as [->|Hne].
    + rewrite <- Hk. destruct (OrderedDict.get k pl1) eqn:E; simpl.
      * by rewrite !get_set_eq.
      * split; [congruence|done].
    + destruct (OrderedDict.get (String c k') pl1),
        (OrderedDict.get (String c k') pl2); simpl;
        rewrite ?get_set_ne; done.
Qed.

Lemma scan_agree k tokens st1 st2 :
  OrderedDict.get k st1.1 = OrderedDict.get k st2.1 -> st1.2 = st2.2 ->
  OrderedDict.get k (fold_left scan_token tokens st1).1 =
  OrderedDict.get k (fold_left scan_token tokens st2).1.
Proof.
  revert st1 st2. induction tokens as [|token tokens IH]; intros st1 st2 H1 H2;
    simpl; [done|].
  destruct (scan_token_agree k st1 st2 token H1 H2). by apply IH.
Qed.

(** What precedes an assignment to a key plays no part in the key's final
    value. *)
Lemma scan_later_assignment before token after :
  Py.contains "=" token = true ->
  OrderedDict.get (Py.partition "=" token).1
    (scan_payload (before ++ token :: after)).1 =
  OrderedDict.get (Py.partition "=" token).1 (scan_payload (token :: after)).1.
Proof.
  intros Heq. unfold scan_payload. rewrite fold_left_app. simpl.
  destruct (fold_left scan_token before ([], None)) as [pl cur].
  apply scan_agree; unfold scan_token; rewrite Heq;
    destruct (Py.partition "=" token) as [key value]; simpl; [|done].
  by rewrite get_set_eq, String.eqb_refl.
Qed.

Lemma fill_record_keys payload base :
  OrderedDict.keys (fill_record base payload) =
  first_seen (OrderedDict.keys base) (OrderedDict.keys payload).
Proof.
  revert base. induction payload as [|[k raw] payload IH]; intros base; simpl; [done|].
  unfold fill_record in *. simpl. by rewrite IH, keys_set.
Qed.

Lemma fill_record_get payload base k :
  NoDup (OrderedDict.keys payload) ->
  OrderedDict.get k (fill_record base payload) =
  match OrderedDict.get k payload with
  | Some raw => Some (normalize_value raw)
  | None => OrderedDict.get k base
  end.
Proof.
  revert base. induction payload as [|[k0 raw0] payload IH]; intros base; simpl; [done|].
  intros [Hk0 Hnd]%NoDup_cons. unfold fill_record in *. simpl. rewrite IH by done.
  destruct (String.eqb_spec k k0) as [->|Hne].
  - apply get_None in Hk0. by rewrite Hk0, get_set_eq.
  - by rewrite get_set_ne.
Qed.

Lemma extract_severity_keys rec :
  OrderedDict.keys (extract_severity rec) = OrderedDict.keys rec
  \/ OrderedDict.keys (extract_severity rec) = OrderedDict.keys rec ++ ["severity"].
Proof.
  unfold extract_severity.
  destruct (OrderedDict.get "issue" rec) as [[issue| |]|] eqn:E; auto.
  destruct (Re.search issue); auto.
  rewrite !keys_set. apply get_Some_key in E.
  rewrite (add_key_present (add_key _ _) "issue").
  - unfold add_key. case_bool_decide; auto.
  - apply elem_of_add_key. by left.
Qed.

Lemma extract_severity_get rec k :
  k <> "issue" -> k <> "severity" ->
  OrderedDict.get k (extract_severity rec) = OrderedDict.get k rec.
Proof.
  intros Hi Hs. unfold extract_severity.
  destruct (OrderedDict.get "issue" rec) as [[issue| |]|]; try done.
  destruct (Re.search issue); [|done].
  by rewrite !get_set_ne.
Qed.

Lemma extract_severity_NoDup rec :
  NoDup (OrderedDict.keys rec) -> NoDup (OrderedDict.keys (extract_severity rec)).
Proof.
  intros H. unfold extract_severity.
  destruct (OrderedDict.get "issue" rec) as [[issue| |]|]; try done.
  destruct (Re.search issue); [|done].
  rewrite !keys_set. by do 2 apply add_key_NoDup.
Qed.

Lemma payload_record_split line p0 p1 p2 p3 p4 p5 rest :
  Py.split line = p0 :: p1 :: p2 :: p3 :: p4 :: p5 :: rest ->
  payload_record line =
  Some (fill_record (base_record p0 p1 p2 p3 p4) (scan_payload (p5 :: rest)).1).
Proof. intros H. unfold payload_record. by rewrite split_strip, H. Qed.

Lemma payload_record_keys line p0 p1 p2 p3 p4 p5 rest filled :
  Py.split line = p0 :: p1 :: p2 :: p3 :: p4 :: p5 :: rest ->
  payload_record line = Some filled ->
  schema_key filled = first_seen BASE_COLUMNS (tail_keys (p5 :: rest)).
Proof.
  intros H. rewrite (payload_record_split _ _ _ _ _ _ _ _ H). intros [= <-].
  unfold schema_key. rewrite fill_record_keys, scan_payload_keys.
  apply (first_seen_idem BASE_COLUMNS).
Qed.

End Parser.

(** ** Records returned by [parse_line] *)

Section ParseLine.

Variables (line p0 p1 p2 p3 p4 p5 : string) (rest : list string).
Hypothesis Hsplit : Py.split line = p0 :: p1 :: p2 :: p3 :: p4 :: p5 :: rest.

Local Abbreviation payload := (scan_payload (p5 :: rest)).1.
Local Abbreviation filled := (fill_record (base_record p0 p1 p2 p3 p4) payload).

Lemma parse_line_split : parse_line line = Some (extract_severity filled).
Proof. unfold parse_line. by rewrite (payload_record_split _ _ _ _ _ _ _ _ Hsplit). Qed.

Lemma filled_keys : schema_key filled = first_seen BASE_COLUMNS (tail_keys (p5 :: rest)).
Proof.
  eapply payload_record_keys; [exact Hsplit|].
  apply payload_record_split, Hsplit.
Qed.

Lemma filled_get k :
  OrderedDict.get k filled =
  match OrderedDict.get k payload with
  | Some raw => Some (normalize_value raw)
  | None => OrderedDict.get k (base_record p0 p1 p2 p3 p4)
  end.
Proof. apply fill_record_get, scan_payload_NoDup. Qed.

Lemma parsed_NoDup : NoDup (schema_key (extract_severity filled)).
Proof.
  apply extract_severity_NoDup. fold (schema_key filled). rewrite filled_keys.
  apply first_seen_NoDup. unfold BASE_COLUMNS.
  apply NoDup_ListNoDup. repeat constructor; simpl; intuition discriminate.
Qed.

Lemma parsed_prefix : BASE_COLUMNS `prefix_of` schema_key (extract_severity filled).
Proof.
  assert (H : BASE_COLUMNS `prefix_of` schema_key filled).
  { rewrite filled_keys. apply first_seen_prefix. }
  destruct (extract_severity_keys filled) as [E|E]; unfold schema_key in *; rewrite E.
  - exact H.
  - by apply prefix_app_r.
Qed.

Lemma base_not_rewritten i name :
  BASE_COLUMNS !! i = Some name -> name <> "issue" /\ name <> "severity".
Proof.
  unfold BASE_COLUMNS. do 4 (destruct i as [|i]; [intros [= <-]; done|]). done.
Qed.

Lemma leading_field i name v :
  BASE_COLUMNS !! i = Some name ->
  OrderedDict.get name filled = Some v ->
  extract_severity filled !! i = Some (name, v).
Proof.
  intros Hi Hv. destruct (base_not_rewritten _ _ Hi) as [H1 H2].
  apply get_lookup.
  - destruct parsed_prefix as [more E]. unfold schema_key in E. rewrite E.
    by apply lookup_app_l_Some.
  - apply parsed_NoDup.
  - by rewrite extract_severity_get.
Qed.

Lemma payload_absent k :
  k ∉ tail_keys (p5 :: rest) -> OrderedDict.get k payload = None.
Proof.
  intros H. apply get_None. rewrite scan_payload_keys.
  rewrite elem_of_first_seen. intros [?%elem_of_nil|?]; done.
Qed.

End ParseLine.

(** C6, as worded, fails: a [service=...] token in the tail replaces the
    positional value of the field [service]. *)
Lemma leading_fields_overwritten :
  ~ leading_fields_positional "2024-01-01 10:00:00 INFO auth login service=billing".
Proof.
  intros H.
  destruct (H "2024-01-01" "10:00:00" "INFO" "auth" "login" "service=billing" [] eq_refl)
    as (rec & more & Hp & Hrec).
  vm_compute in Hp. injection Hp as <-. discriminate Hrec.
Qed.

(** C6, amended. [parse_line] discards a line exactly when it has fewer
    than six whitespace-separated tokens.  For a line with at least six,
    the first four fields of the record are named timestamp, message_type,
    service and action, in that order, and each holds its positional value
    (tokens 0 and 1 joined by one space; token 2; token 3; token 4) unless
    the tail assigns a key of that name. *)
Theorem parse_line_leading_fields (line : string) :
  (parse_line line = None <-> length (Py.split line) < 6)
  /\ forall p0 p1 p2 p3 p4 p5 rest,
       Py.split line = p0 :: p1 :: p2 :: p3 :: p4 :: p5 :: rest ->
       exists rec,
         parse_line line = Some rec
         /\ take 4 (schema_key rec) = BASE_COLUMNS
         /\ forall i name positional,
              zip BASE_COLUMNS [p0 +:+ " " +:+ p1; p2; p3; p4] !! i
                = Some (name, positional) ->
              name ∉ tail_keys (p5 :: rest) ->
              rec !! i = Some (name, VStr positional).
Proof.
  split.
  - unfold parse_line, payload_record. rewrite split_strip.
    destruct (Py.split line) as [|? [|? [|? [|? [|? [|? ?]]]]]]; simpl;
      split; intros; try done; lia.
  - intros p0 p1 p2 p3 p4 p5 rest Hsplit.
    eexists. split; [by apply parse_line_split|]. split.
    + destruct (parsed_prefix _ _ _ _ _ _ _ _ Hsplit) as [more ->]. done.
    + intros i name positional Hi Hout.
      assert (Hn : BASE_COLUMNS !! i = Some name).
      { do 4 (destruct i as [|i]; [by injection Hi as <- _|]). done. }
      apply (leading_field _ _ _ _ _ _ _ _ Hsplit); [done|].
      rewrite fill_record_get by apply scan_payload_NoDup.
      rewrite (payload_absent _ _ _ Hout).
      do 4 (destruct i as [|i]; [by injection Hi as <- <-|]). done.
Qed.

Lemma parse_line_leading_fields_witness :
  exists rec,
    parse_line "2024-01-01 10:00:00 INFO auth login user=bob" = Some rec
    /\ take 4 (schema_key rec) = BASE_COLUMNS
    /\ rec !! 2 = Some ("service", VStr "auth").
Proof.
  destruct (proj2 (parse_line_leading_fields
                     "2024-01-01 10:00:00 INFO auth login user=bob")
              "2024-01-01" "10:00:00" "INFO" "auth" "login" "user=bob" [] eq_refl)
    as (rec & Hp & Hk & Hv).
  exists rec. split; [exact Hp|]. split; [exact Hk|].
  apply (Hv 2 "service" "auth" eq_refl).
  vm_compute. intros H. inversion H as [|? ? ? H']; inversion H'.
Defined.

(** C10, as worded, fails for the keys the severity step rewrites: a tail
    that assigns [severity] twice and then an issue with an annotation gives
    a record whose [severity] is the annotation's text, not the value of the
    later assignment. *)
Lemma severity_assignment_replaced :
  ~ tail_value_kept
      "2024-01-01 10:00:00 INFO auth login severity=low severity=mid issue=x (severity: high)".
Proof.
  intros H.
  destruct (H "2024-01-01" "10:00:00" "INFO" "auth" "login" "severity=low"
              ["severity=mid"; "issue=x"; "(severity:"; "high)"]
              ["severity=low"] "severity=mid" ["issue=x"; "(severity:"; "high)"]
              "mid" eq_refl eq_refl eq_refl)
    as (rec & Hp & Hv).
  - change ("severity" ∈ ["severity"]). apply list_elem_of_here.
  - change ("severity" ∉ ["issue"]).
    apply not_elem_of_cons. split; [discriminate|apply not_elem_of_nil].
  - reflexivity.
  - vm_compute in Hp. injection Hp as <-. vm_compute in Hv. discriminate Hv.
Qed.

(** C10, amended. When the tail of a line assigns a key named like one of
    the four leading fields, the parsed record holds the normalised payload
    value under that name, still at its leading position.  A key assigned
    more than once in the tail keeps the place of its first assignment and
    takes the value of the later one: what precedes an assignment plays no
    part in the payload value.  The parsed record holds the normalised
    payload value of every tail key other than issue and severity, and of
    these two as well when the issue carries no severity annotation; when it
    does, severity holds the annotation's text and issue the cleaned text,
    whatever the tail assigned to them.  The field names of a record are the
    leading names followed by the tail keys in first-seen order (then
    severity, when the post-processing adds it), so no name occurs twice. *)
Theorem payload_overwrites_positional (line p0 p1 p2 p3 p4 p5 : string)
    (rest : list string) :
  Py.split line = p0 :: p1 :: p2 :: p3 :: p4 :: p5 :: rest ->
  exists filled rec,
    payload_record line = Some filled
    /\ parse_line line = Some rec
    /\ (forall i name raw,
          BASE_COLUMNS !! i = Some name ->
          OrderedDict.get name (scan_payload (p5 :: rest)).1 = Some raw ->
          rec !! i = Some (name, normalize_value raw))
    /\ (forall k, k ∈ tail_keys (p5 :: rest) ->
          exists raw, OrderedDict.get k (scan_payload (p5 :: rest)).1 = Some raw
                      /\ OrderedDict.get k filled = Some (normalize_value raw))
    /\ (forall k, k <> "issue" -> k <> "severity" ->
          OrderedDict.get k rec = OrderedDict.get k filled)
    /\ (forall k raw,
          OrderedDict.get k (scan_payload (p5 :: rest)).1 = Some raw ->
          k <> "issue" -> k <> "severity" ->
          OrderedDict.get k rec = Some (normalize_value raw))
    /\ ((forall issue, OrderedDict.get "issue" filled = Some (VStr issue) ->
                       Re.search issue = None) ->
        rec = filled
        /\ forall k raw,
             OrderedDict.get k (scan_payload (p5 :: rest)).1 = Some raw ->
             OrderedDict.get k rec = Some (normalize_value raw))
    /\ (forall issue group1,
          OrderedDict.get "issue" filled = Some (VStr issue) ->
          Re.search issue = Some group1 ->
          OrderedDict.get "severity" rec = Some (VStr (Py.strip group1))
          /\ OrderedDict.get "issue" rec = Some (VStr (clean_issue issue)))
    /\ (forall before token after,
          p5 :: rest = before ++ token :: after ->
          Py.contains "=" token = true ->
          OrderedDict.get (Py.partition "=" token).1 (scan_payload (p5 :: rest)).1
          = OrderedDict.get (Py.partition "=" token).1 (scan_payload (token :: after)).1)
    /\ (forall before token after raw,
          p5 :: rest = before ++ token :: after ->
          Py.contains "=" token = true ->
          OrderedDict.get (Py.partition "=" token).1 (scan_payload (token :: after)).1
          = Some raw ->
          (Py.partition "=" token).1 <> "issue" ->
          (Py.partition "=" token).1 <> "severity" ->
          OrderedDict.get (Py.partition "=" token).1 rec = Some (normalize_value raw))
    /\ schema_key filled = first_seen BASE_COLUMNS (tail_keys (p5 :: rest))
    /\ (schema_key rec = schema_key filled
        \/ schema_key rec = schema_key filled ++ ["severity"])
    /\ NoDup (schema_key rec).
Proof.
  intros Hsplit. eexists _, _.
  split; [by apply payload_record_split|].
  split; [by apply parse_line_split|].
  split; [|split; [|split; [|split; [|split; [|split; [|split; [|split; [|split; [|split]]]]]]]]].
  - intros i name raw Hi Hraw.
    apply (leading_field _ _ _ _ _ _ _ _ Hsplit); [done|].
    by rewrite filled_get, Hraw.
  - intros k Hk.
    destruct (OrderedDict.get k (scan_payload (p5 :: rest)).1) as [raw|] eqn:E.
    + exists raw. split; [done|]. by rewrite filled_get, E.
    + apply get_None in E. destruct E. rewrite scan_payload_keys.
      apply elem_of_first_seen. by right.
  - intros k Hi Hs. by apply extract_severity_get.
  - intros k raw Hraw Hi Hs.
    by rewrite extract_severity_get, filled_get, Hraw.
  - intros Hnone.
    assert (Hsame : extract_severity
                      (fill_record (base_record p0 p1 p2 p3 p4)
                         (scan_payload (p5 :: rest)).1)
                    = fill_record (base_record p0 p1 p2 p3 p4)
                        (scan_payload (p5 :: rest)).1).
    { unfold extract_severity.
      destruct (OrderedDict.get "issue" _) as [[issue| |]|] eqn:E; try done.
      by rewrite (Hnone issue). }
    split; [exact Hsame|].
    intros k raw Hraw. by rewrite Hsame, filled_get, Hraw.
  - intros issue group1 Hissue Hsearch. unfold extract_severity.
    rewrite Hissue, Hsearch. split.
    + by rewrite get_set_ne, get_set_eq.
    + by rewrite get_set_eq.
  - intros before token after -> Heq. by apply scan_later_assignment.
  - intros before token after raw Hrest Heq Hraw Hi Hs.
    rewrite extract_severity_get, filled_get by done.
    by rewrite Hrest, (scan_later_assignment _ _ _ Heq), Hraw.
  - by eapply filled_keys.
  - apply extract_severity_keys.
  - by eapply parsed_NoDup.
Qed.

Lemma payload_overwrites_positional_witness :
  exists rec,
    parse_line "2024-01-01 10:00:00 INFO auth login service=7 retry=1 retry=2" = Some rec
    /\ rec !! 2 = Some ("service", VInt 7)
    /\ OrderedDict.get "retry" rec = Some (VInt 2)
    /\ schema_key rec = BASE_COLUMNS ++ ["retry"].
Proof.
  destruct (payload_overwrites_positional
              "2024-01-01 10:00:00 INFO auth login service=7 retry=1 retry=2"
              "2024-01-01" "10:00:00" "INFO" "auth" "login" "service=7"
              ["retry=1"; "retry=2"] eq_refl)
    as (filled & rec & _ & Hp & Hbase & _ & _ & Hvalue & _ & _ & _ & _ & Hkeys & Hsev & _).
  exists rec. split; [exact Hp|]. split; [|split].
  - exact (Hbase 2 "service" "7" eq_refl eq_refl).
  - apply (Hvalue "retry" "2" eq_refl); discriminate.
  - vm_compute in Hp. injection Hp as <-. reflexivity.
Defined.

(** The three rules of the scan, for a pending key that is not the empty
    string. *)
Lemma scan_token_rules payload current_key token :
  (Py.contains "=" token = true ->
   scan_token (payload, current_key) token
   = (OrderedDict.set (Py.partition "=" token).1 (Py.partition "=" token).2 payload,
      Some (Py.partition "=" token).1))
  /\ (Py.contains "=" token = false ->
      forall key old, current_key = Some key -> key <> EmptyString ->
      OrderedDict.get key payload = Some old ->
      scan_token (payload, current_key) token
      = (OrderedDict.set key (old +:+ " " +:+ token) payload, current_key))
  /\ (Py.contains "=" token = false -> current_key = None ->
      scan_token (payload, current_key) token = (payload, current_key)).
Proof.
  unfold scan_token. split; [|split].
  - intros ->. by destruct (Py.partition "=" token).
  - intros -> key old -> Hne Hold. destruct key; [done|]. by rewrite Hold.
  - by intros -> ->.
Qed.

(** C7 at its failing input: after a token of the form [=value] the pending
    key is the empty string, and the next token without [=] is dropped
    instead of being appended to the value of that key. *)
Theorem scan_drops_after_empty_key :
  scan_token ([(EmptyString, "a")], Some EmptyString) "b"
  = ([(EmptyString, "a")], Some EmptyString)
  /\ scan_payload ["=a"; "b"] = ([(EmptyString, "a")], Some EmptyString)
  /\ scan_payload ["k=a"; "b"] = ([("k", "a b")], Some "k")
  /\ parse_line "2024-01-01 10:00:00 INFO auth login =a b"
     = Some (base_record "2024-01-01" "10:00:00" "INFO" "auth" "login"
               ++ [(EmptyString, VStr "a")]).
Proof. by vm_compute. Qed.

(** ** The severity annotation *)

Section Severity.

Lemma length_app_str a b : String.length (a +:+ b) = String.length a + String.length b.
Proof. induction a as [|c a IH]; [done|]. rewrite app_cons. simpl. by rewrite IH. Qed.

Lemma lit_Some {R} l (k : string -> option R) s m :
  Re.lit l k s = Some m -> exists s', s = l +:+ s' /\ k s' = Some m.
Proof.
  revert s. induction l as [|a l IH]; intros s; simpl.
  - intros H. by exists s.
  - destruct s as [|c s]; [done|].
    destruct (Ascii.eqb_spec c a) as [->|]; [|done].
    intros (s' & -> & Hk)%IH. by exists s'.
Qed.

Lemma star_Some {R} cls (k : string -> string -> option R) s m :
  Re.star cls k s = Some m ->
  exists g r, s = g +:+ r /\ Py.all_chars cls g = true /\ k g r = Some m.
Proof.
  revert k. induction s as [|c s IH]; intros k; simpl.
  - intros H. by exists EmptyString, EmptyString.
  - destruct (cls c) eqn:Hc; [|intros H; by exists EmptyString, (String c s)].
    destruct (Re.star cls _ s) as [m'|] eqn:E.
    + intros [= ->]. apply IH in E as (g & r & -> & Hg & Hk).
      exists (String c g), r. simpl. by rewrite Hc, Hg.
    + intros H. by exists EmptyString, (String c s).
Qed.

Lemma plus_Some {R} cls (k : string -> string -> option R) s m :
  Re.plus cls k s = Some m ->
  exists g r, s = g +:+ r /\ g <> EmptyString /\ Py.all_chars cls g = true
              /\ k g r = Some m.
Proof.
  unfold Re.plus. destruct s as [|c s]; [done|].
  destruct (cls c) eqn:Hc; [|done].
  intros (g & r & -> & Hg & Hk)%star_Some.
  exists (String c g), r. simpl. by rewrite Hc, Hg.
Qed.

(** A match is the literal opening, whitespace, a non-empty group without
    a closing parenthesis, and the closing parenthesis. *)
Lemma severity_at_Some s g rest :
  Re.severity_at s = Some (g, rest) ->
  exists ws, s = "(severity:" +:+ ws +:+ g +:+ ")" +:+ rest
             /\ Py.all_chars Py.isspace ws = true
             /\ g <> EmptyString
             /\ Py.all_chars Re.not_rparen g = true.
Proof.
  unfold Re.severity_at.
  intros (s1 & -> & (ws & s2 & -> & Hws & H)%star_Some)%lit_Some.
  apply plus_Some in H as (g' & s3 & -> & Hne & Hg & H).
  apply lit_Some in H as (s4 & -> & [= <- <-]).
  by exists ws.
Qed.

Lemma search_Some s g :
  Re.search s = Some g ->
  exists before ws after,
    s = before +:+ "(severity:" +:+ ws +:+ g +:+ ")" +:+ after
    /\ Py.all_chars Py.isspace ws = true
    /\ g <> EmptyString
    /\ Py.all_chars Re.not_rparen g = true.
Proof.
  induction s as [|c s IH]; simpl.
  - done.
  - destruct (Re.severity_at (String c s)) as [[g' r]|] eqn:E.
    + intros [= ->]. apply severity_at_Some in E as (ws & -> & ?).
      by exists EmptyString, ws, r.
    + intros (before & ws & after & -> & ?)%IH.
      by exists (String c before), ws, after.
Qed.

Lemma lit_app {R} l (k : string -> option R) s : Re.lit l k (l +:+ s) = k s.
Proof.
  induction l as [|a l IH]; [done|]. rewrite app_cons. simpl.
  by rewrite Ascii.eqb_refl.
Qed.

Lemma star_fallback {R} cls (k : string -> string -> option R) s :
  is_Some (k EmptyString s) -> is_Some (Re.star cls k s).
Proof.
  intros H. destruct s as [|c s]; simpl; [done|].
  destruct (cls c); [|done]. by destruct (Re.star cls _ s).
Qed.

(** A run of the class that ends at the text's end or at a character
    outside the class is taken whole when the rest of the pattern accepts
    it. *)
Lemma star_run {R} cls (k : string -> string -> option R) g r m :
  Py.all_chars cls g = true ->
  match r with String c _ => cls c = false | EmptyString => True end ->
  k g r = Some m -> Re.star cls k (g +:+ r) = Some m.
Proof.
  intros Hg Hr. revert k. induction g as [|x g IH]; intros k Hk.
  - rewrite app_empty_l. destruct r as [|c r]; simpl; [done|]. by rewrite Hr.
  - rewrite app_cons. simpl in *. apply andb_true_iff in Hg as [-> Hg].
    by rewrite (IH Hg (fun g r => k (String x g) r) Hk).
Qed.

Lemma severity_at_complete body after :
  body <> EmptyString -> Py.all_chars Re.not_rparen body = true ->
  is_Some (Re.severity_at ("(severity:" +:+ body +:+ ")" +:+ after)).
Proof.
  intros Hne Hbody. unfold Re.severity_at. rewrite lit_app.
  apply star_fallback. unfold Re.plus.
  destruct body as [|c body]; [done|]. rewrite app_cons. simpl in *.
  apply andb_true_iff in Hbody as [-> Hbody].
  erewrite star_run; [done|exact Hbody|done|]. simpl. eauto.
Qed.

Lemma search_suffix before s :
  is_Some (Re.severity_at s) -> is_Some (Re.search (before +:+ s)).
Proof.
  intros Hs. induction before as [|c before IH].
  - rewrite app_empty_l. destruct Hs as [[g r] Hs].
    destruct s as [|c s]; [done|]. simpl. by rewrite Hs.
  - rewrite app_cons. simpl.
    by destruct (Re.severity_at (String c (before +:+ s))) as [[g r]|].
Qed.

(** Every text with an opening [(severity:], a non-empty run without a
    closing parenthesis and a closing parenthesis is found. *)
Lemma search_complete before body after :
  body <> EmptyString -> Py.all_chars Re.not_rparen body = true ->
  is_Some (Re.search (before +:+ "(severity:" +:+ body +:+ ")" +:+ after)).
Proof. intros. by apply search_suffix, severity_at_complete. Qed.

Lemma severity_at_shorter s g rest :
  Re.severity_at s = Some (g, rest) -> String.length rest < String.length s.
Proof.
  intros (ws & -> & _)%severity_at_Some. rewrite !length_app_str. simpl. lia.
Qed.

(** The fuel of [Re.sub] is enough: more fuel gives the same text. *)
Lemma sub_fuel_enough f1 f2 s :
  String.length s < f1 -> String.length s < f2 -> Re.sub_fuel f1 s = Re.sub_fuel f2 s.
Proof.
  revert f2 s. induction f1 as [|f1 IH]; intros f2 s H1 H2; [lia|].
  destruct f2 as [|f2]; [lia|]. simpl.
  destruct (Re.severity_at s) as [[g rest]|] eqn:E.
  - apply severity_at_shorter in E. apply IH; lia.
  - destruct s as [|c s]; [done|]. simpl in *. f_equal. apply IH; lia.
Qed.

(** [Re.sub] satisfies the equation of the scan it stands for. *)
Lemma sub_unfold s :
  Re.sub s =
  match Re.severity_at s with
  | Some (_, rest) => Re.sub rest
  | None =>
      match s with
      | String c s' => String c (Re.sub s')
      | EmptyString => EmptyString
      end
  end.
Proof.
  unfold Re.sub at 1. simpl.
  destruct (Re.severity_at s) as [[g rest]|] eqn:E.
  - apply severity_at_shorter in E. unfold Re.sub. apply sub_fuel_enough; lia.
  - by destruct s.
Qed.

Lemma extract_severity_found rec issue group1 :
  OrderedDict.get "issue" rec = Some (VStr issue) ->
  Re.search issue = Some group1 ->
  OrderedDict.get "severity" (extract_severity rec) = Some (VStr (Py.strip group1))
  /\ OrderedDict.get "issue" (extract_severity rec) = Some (VStr (clean_issue issue))
  /\ schema_key (extract_severity rec) = add_key (schema_key rec) "severity".
Proof.
  intros Hi Hs. unfold extract_severity. rewrite Hi, Hs. split; [|split].
  - by rewrite get_set_ne, get_set_eq.
  - by rewrite get_set_eq.
  - unfold schema_key. rewrite !keys_set. apply add_key_present.
    apply elem_of_add_key. left. by eapply get_Some_key.
Qed.

End Severity.

(** C2, as worded, fails: with a field after the issue, the severity field
    lands behind that field, not directly behind the issue. *)
Lemma severity_not_adjacent :
  ~ severity_follows_issue
      "2024-01-01 10:00:00 WARN disk check issue=Disk nearly full (severity: critical). host=a1".
Proof.
  intros H.
  destruct (H (base_record "2024-01-01" "10:00:00" "WARN" "disk" "check"
                 ++ [("issue", VStr "Disk nearly full (severity: critical).");
                     ("host", VStr "a1")])
              "Disk nearly full (severity: critical)." "critical")
    as (rec & before & after & Hp & Hrec); [by vm_compute..|].
  vm_compute in Hp. injection Hp as <-.
  do 8 (destruct before as [|? before]; vm_compute in Hrec;
        [discriminate Hrec|first [discriminate Hrec|injection Hrec as _ Hrec]]).
Qed.

(** C2, amended. When the issue field of the record filled from the line
    is a string in which the pattern [(severity: text)] is found, the
    parsed record has a field severity holding the trimmed text; that field
    is appended at the end of the record (it directly follows the issue
    only when the issue is the last field), or overwritten in place when a
    field of that name is already there.  The issue is rewritten with the
    annotations removed, one trailing period dropped and surrounding
    whitespace trimmed; the other fields are untouched.  The text found is
    non-empty, has no closing parenthesis and stands in the issue between
    the opening, optional whitespace, and a closing parenthesis; and
    every issue of that shape is found.  In
    particular the issue "Disk nearly full (severity: critical)." gives the
    issue "Disk nearly full" and the severity "critical". *)
Theorem severity_extraction :
  (forall line filled issue group1,
     payload_record line = Some filled ->
     OrderedDict.get "issue" filled = Some (VStr issue) ->
     Re.search issue = Some group1 ->
     exists rec,
       parse_line line = Some rec
       /\ OrderedDict.get "severity" rec = Some (VStr (Py.strip group1))
       /\ OrderedDict.get "issue" rec = Some (VStr (clean_issue issue))
       /\ schema_key rec = add_key (schema_key filled) "severity"
       /\ (forall k, k <> "issue" -> k <> "severity" ->
             OrderedDict.get k rec = OrderedDict.get k filled)
       /\ exists before ws after,
            issue = before +:+ "(severity:" +:+ ws +:+ group1 +:+ ")" +:+ after
            /\ Py.all_chars Py.isspace ws = true
            /\ group1 <> EmptyString
            /\ Py.all_chars Re.not_rparen group1 = true)
  /\ (forall before body after,
        body <> EmptyString -> Py.all_chars Re.not_rparen body = true ->
        is_Some (Re.search (before +:+ "(severity:" +:+ body +:+ ")" +:+ after)))
  /\ parse_line
       "2024-01-01 10:00:00 WARN disk check issue=Disk nearly full (severity: critical)."
     = Some (base_record "2024-01-01" "10:00:00" "WARN" "disk" "check"
               ++ [("issue", VStr "Disk nearly full"); ("severity", VStr "critical")]).
Proof.
  split; [|split; [apply search_complete|reflexivity]].
  intros line filled issue group1 Hf Hi Hs.
  exists (extract_severity filled). unfold parse_line. rewrite Hf.
  destruct (extract_severity_found _ _ _ Hi Hs) as (H1 & H2 & H3).
  split_and!; try done.
  - intros k ? ?. by apply extract_severity_get.
  - by apply search_Some.
Qed.

Lemma severity_extraction_witness :
  exists rec,
    parse_line "2024-01-01 10:00:00 WARN disk check issue=Disk nearly full (severity: critical). host=a1"
    = Some rec
    /\ OrderedDict.get "severity" rec = Some (VStr "critical")
    /\ OrderedDict.get "issue" rec = Some (VStr "Disk nearly full")
    /\ schema_key rec = BASE_COLUMNS ++ ["issue"; "host"; "severity"].
Proof.
  destruct (proj1 severity_extraction
              "2024-01-01 10:00:00 WARN disk check issue=Disk nearly full (severity: critical). host=a1"
              (base_record "2024-01-01" "10:00:00" "WARN" "disk" "check"
                 ++ [("issue", VStr "Disk nearly full (severity: critical).");
                     ("host", VStr "a1")])
              "Disk nearly full (severity: critical)." "critical")
    as (rec & Hp & Hsev & Hissue & Hkeys & _); [vm_compute; reflexivity..|].
  exists rec. split; [exact Hp|]. split; [exact Hsev|]. split; [exact Hissue|].
  rewrite Hkeys. reflexivity.
Defined.

(** ** Classification *)

Section Classification.

Lemma parse_line_nonempty line rec : parse_line line = Some rec -> rec <> [].
Proof.
  intros H.
  destruct (Py.split line) as [|p0 [|p1 [|p2 [|p3 [|p4 [|p5 rest]]]]]] eqn:E;
    try (unfold parse_line, payload_record in H; rewrite split_strip, E in H;
         discriminate H).
  rewrite (parse_line_split _ _ _ _ _ _ _ _ E) in H. injection H as <-.
  destruct (parsed_prefix _ _ _ _ _ _ _ _ E) as [more Hk].
  intros Hnil. unfold schema_key in Hk. by rewrite Hnil in Hk.
Qed.

Lemma parse_line_blank line : Py.strip line = EmptyString -> parse_line line = None.
Proof. intros H. unfold parse_line, payload_record. by rewrite H. Qed.

(** The effect of one line on the mapping, by the outcome of parsing. *)
Lemma classify_line_spec m line :
  classify_line m line =
  match parse_line line with
  | Some rec => <[schema_key rec := group m (schema_key rec) ++ [rec]]> m
  | None => m
  end.
Proof.
  unfold classify_line.
  destruct (Py.strip line) eqn:Hs; [by rewrite parse_line_blank|].
  destruct (parse_line line) as [[|field fields]|] eqn:Hp; [|done..].
  by apply parse_line_nonempty in Hp.
Qed.

Lemma classify_snoc lines line :
  classify (lines ++ [line]) = classify_line (classify lines) line.
Proof. unfold classify. by rewrite fold_left_app. Qed.

Lemma parsed_snoc lines line :
  parsed (lines ++ [line]) = parsed lines ++ option_list (parse_line line).
Proof.
  unfold parsed. rewrite omap_app. simpl. by destruct (parse_line line).
Qed.

Lemma classify_group lines key :
  group (classify lines) key =
  filter (fun rec => schema_key rec = key) (parsed lines).
Proof.
  induction lines as [|line lines IH] using rev_ind; [done|].
  rewrite classify_snoc, parsed_snoc, classify_line_spec, filter_app, <- IH.
  destruct (parse_line line) as [rec|]; simpl; [|by rewrite app_nil_r].
  unfold group. destruct (decide (schema_key rec = key)) as [Heq|Hne].
  - rewrite Heq, lookup_insert_eq. simpl. by rewrite filter_cons_True.
  - rewrite lookup_insert_ne by done. rewrite filter_cons_False by done.
    by rewrite filter_nil, app_nil_r.
Qed.

Lemma all_records_insert (m : groups) key rec :
  all_records (<[key := group m key ++ [rec]]> m) ≡ₚ all_records m ++ [rec].
Proof.
  unfold all_records, group. destruct (m !! key) as [old|] eqn:E; simpl.
  - rewrite <- insert_delete_eq.
    rewrite map_to_list_insert by apply lookup_delete_eq.
    rewrite <- (map_to_list_delete m key old E). simpl.
    rewrite <- !app_assoc. apply Permutation_app_head, Permutation_app_comm.
  - rewrite map_to_list_insert by done. simpl. apply Permutation_cons_append.
Qed.

Lemma classify_all_records lines : all_records (classify lines) ≡ₚ parsed lines.
Proof.
  induction lines as [|line lines IH] using rev_ind.
  - unfold classify, all_records. simpl. by rewrite map_to_list_empty.
  - rewrite classify_snoc, parsed_snoc, classify_line_spec.
    destruct (parse_line line) as [rec|]; simpl; [|by rewrite app_nil_r].
    by rewrite all_records_insert, IH.
Qed.

Lemma classify_nonempty lines key records :
  classify lines !! key = Some records -> records <> [].
Proof.
  revert key records. induction lines as [|line lines IH] using rev_ind;
    intros key records.
  - unfold classify. simpl. by rewrite lookup_empty.
  - rewrite classify_snoc, classify_line_spec.
    destruct (parse_line line) as [rec|]; [|apply IH].
    destruct (decide (schema_key rec = key)) as [->|Hne].
    + rewrite lookup_insert_eq. intros [= <-]. by destruct (group _ _).
    + rewrite lookup_insert_ne by done. apply IH.
Qed.

End Classification.

(** C5. Classification partitions the parsed records: the group of a schema
    key holds exactly the parsed records with that field-name tuple, in
    arrival order, so a record is in the group of its own key and in no
    other; no group is empty; the group sizes add up to the number of
    parsed records; and the groups together hold every parsed record as
    often as it was parsed. *)
Theorem classify_partition (lines : list string) :
  (forall key,
     group (classify lines) key
     = filter (fun rec => schema_key rec = key) (parsed lines))
  /\ (forall key records, classify lines !! key = Some records -> records <> [])
  /\ sum_list (length <$> (map_to_list (classify lines)).*2) = length (parsed lines)
  /\ all_records (classify lines) ≡ₚ parsed lines.
Proof.
  split; [apply classify_group|]. split; [apply classify_nonempty|].
  split; [|apply classify_all_records].
  rewrite <- (Permutation_length (classify_all_records lines)).
  unfold all_records. generalize ((map_to_list (classify lines)).*2).
  intros l. induction l as [|x l IH]; simpl; [done|].
  rewrite length_app. by f_equal.
Qed.

Lemma classify_partition_witness :
  exists records,
    classify ["2024-01-01 10:00:00 INFO auth login user=bob"; "too short"]
      !! (BASE_COLUMNS ++ ["user"]) = Some records
    /\ records <> [].
Proof.
  exists [base_record "2024-01-01" "10:00:00" "INFO" "auth" "login"
            ++ [("user", VStr "bob")]].
  assert (H : classify ["2024-01-01 10:00:00 INFO auth login user=bob"; "too short"]
                !! (BASE_COLUMNS ++ ["user"])
              = Some [base_record "2024-01-01" "10:00:00" "INFO" "auth" "login"
                        ++ [("user", VStr "bob")]])
    by (vm_compute; reflexivity).
  split; [exact H|].
  exact (proj1 (proj2 (classify_partition
           ["2024-01-01 10:00:00 INFO auth login user=bob"; "too short"])) _ _ H).
Defined.

(** ** File names of the shards *)

Section ShardNames.

Lemma app_inj_r a b c : a +:+ c = b +:+ c -> a = b.
Proof.
  revert b. induction a as [|x a IH]; intros [|y b] H.
  - done.
  - rewrite app_empty_l, app_cons in H. apply (f_equal String.length) in H.
    simpl in H. rewrite length_app_str in H. lia.
  - rewrite app_empty_l, app_cons in H. apply (f_equal String.length) in H.
    simpl in H. rewrite length_app_str in H. lia.
  - rewrite !app_cons in H. injection H as -> H. f_equal. by apply IH.
Qed.

Lemma last_app a b : b <> EmptyString -> Py.last (a +:+ b) = Py.last b.
Proof.
  intros Hb. induction a as [|x a IH]; [done|]. rewrite app_cons. simpl.
  rewrite IH. destruct (a +:+ b) eqn:E; [|done].
  destruct a; [|done]. by rewrite app_empty_l in E.
Qed.

Lemma read_decimal_decimal n : read_decimal (decimal n) = Some n.
Proof.
  unfold read_decimal, decimal. rewrite NilEmpty.usu. simpl.
  f_equal. apply Unsigned.of_to.
Qed.

Lemma read_decimal_format n : read_decimal (format_02 n) = Some n.
Proof.
  unfold format_02. destruct (Nat.ltb _ 2); [|apply read_decimal_decimal].
  pose proof (read_decimal_decimal n) as H. unfold read_decimal in *.
  rewrite app_cons, app_empty_l. simpl.
  destruct (NilEmpty.uint_of_string (decimal n)) as [d|]; [|done].
  simpl in *. by injection H as <-.
Qed.

Lemma format_02_inj i j : format_02 i = format_02 j -> i = j.
Proof.
  intros H. apply (f_equal read_decimal) in H.
  rewrite !read_decimal_format in H. by injection H.
Qed.

Lemma segments_nonempty cur s : Path.segments cur s <> [].
Proof.
  revert cur. induction s as [|c s IH]; intros cur; simpl; [done|].
  destruct (Ascii.eqb c "/"); [done|apply IH].
Qed.

Lemma segments_no_slash cur s :
  Py.contains "/" s = false -> Path.segments cur s = [cur +:+ s].
Proof.
  revert cur. induction s as [|c s IH]; intros cur; simpl.
  - by rewrite app_empty_r.
  - destruct (Ascii.eqb c "/"); [done|]. simpl. intros H.
    rewrite IH by done. by rewrite app_assoc_str.
Qed.

Lemma segments_app cur a b :
  Py.contains "/" b = false ->
  Path.segments cur (a +:+ b) =
  List.removelast (Path.segments cur a)
  ++ [List.last (Path.segments cur a) EmptyString +:+ b].
Proof.
  intros Hb. revert cur. induction a as [|c a IH]; intros cur.
  - rewrite app_empty_l. by apply segments_no_slash.
  - rewrite app_cons. simpl. destruct (Ascii.eqb c "/"); [|apply IH].
    rewrite IH. pose proof (segments_nonempty EmptyString a) as Hne.
    destruct (Path.segments EmptyString a) as [|x l]; done.
Qed.

Lemma kept_long s : 2 <= String.length s -> Path.kept s = true.
Proof.
  destruct s as [|c [|c' s]]; simpl; [lia..|]. intros _.
  unfold Path.kept. simpl. by destruct (Ascii.eqb c ".").
Qed.

(** The last component of [output_dir / (p + s)] when [s] has no slash. *)
Lemma name_div output_dir p s :
  Py.contains "/" s = false -> 2 <= String.length s ->
  Path.name (Path.div output_dir (p +:+ s)) = last_segment p +:+ s.
Proof.
  intros Hs Hlen. unfold Path.name, Path.div, Path.parse, last_segment.
  rewrite (segments_app _ _ _ Hs), List.filter_app. simpl.
  rewrite kept_long by (rewrite length_app_str; lia).
  destruct (Path.root_of (p +:+ s)); simpl;
    rewrite ?app_assoc; apply last_last.
Qed.

Lemma contains_app c a b :
  Py.contains c (a +:+ b) = Py.contains c a || Py.contains c b.
Proof.
  induction a as [|x a IH]; [done|]. rewrite app_cons. simpl.
  by rewrite IH, orb_assoc.
Qed.

Lemma decimal_digits n : Py.all_chars Py.isdecimal (decimal n) = true.
Proof.
  unfold decimal. generalize (Nat.to_uint n). intros d.
  induction d; simpl; [done|by rewrite IHd..].
Qed.

Lemma all_decimal_no_slash s :
  Py.all_chars Py.isdecimal s = true -> Py.contains "/" s = false.
Proof.
  induction s as [|c s IH]; simpl; [done|].
  intros [Hc Hs]%andb_true_iff. rewrite (IH Hs), orb_false_r.
  destruct (Ascii.eqb_spec c "/") as [->|]; [|done]. by vm_compute in Hc.
Qed.

Lemma format_02_no_slash n : Py.contains "/" (format_02 n) = false.
Proof.
  unfold format_02. destruct (Nat.ltb _ 2).
  - rewrite contains_app. simpl. apply all_decimal_no_slash, decimal_digits.
  - apply all_decimal_no_slash, decimal_digits.
Qed.

Lemma shard_suffix_plain n :
  Py.contains "/" ("_schema_" +:+ format_02 n +:+ ".jsonl") = false
  /\ 2 <= String.length ("_schema_" +:+ format_02 n +:+ ".jsonl").
Proof.
  split.
  - by rewrite !contains_app, format_02_no_slash.
  - rewrite length_app_str. simpl. lia.
Qed.

Lemma shard_file_name output_dir table_prefix n :
  Path.name (shard_file output_dir table_prefix n)
  = last_segment table_prefix +:+ "_schema_" +:+ format_02 n +:+ ".jsonl".
Proof.
  destruct (shard_suffix_plain n). unfold shard_file. by apply name_div.
Qed.

Lemma walk_snoc stack ps x :
  x <> ".." -> Path.walk stack (ps ++ [x]) = Path.walk stack ps ++ [x].
Proof.
  intros Hx. revert stack. induction ps as [|p ps IH]; intros stack; simpl.
  - destruct (String.eqb_spec x "..") as [->|_]; done.
  - destruct (String.eqb p ".."); apply IH.
Qed.

(** Resolving a path keeps its last component, unless that is a step up. *)
Lemma name_resolve cwd p :
  3 <= String.length (Path.name p) -> Path.name (Path.resolve cwd p) = Path.name p.
Proof.
  unfold Path.name, Path.resolve. intros Hlen.
  destruct (Path.parts p) as [|x ps _] using rev_ind; [simpl in Hlen; lia|].
  rewrite last_last in *.
  assert (Hx : x <> "..") by (intros ->; simpl in Hlen; lia).
  destruct (Path.root p); simpl; rewrite ?app_assoc, walk_snoc by done;
    apply last_last.
Qed.

Lemma shard_name_long output_dir table_prefix n :
  3 <= String.length (Path.name (shard_file output_dir table_prefix n)).
Proof. rewrite shard_file_name, !length_app_str. simpl. lia. Qed.

(** The shards are files of their own, however the prefix is spelt. *)
Lemma resolve_shard_inj cwd output_dir table_prefix i j :
  Path.resolve cwd (shard_file output_dir table_prefix i)
  = Path.resolve cwd (shard_file output_dir table_prefix j) -> i = j.
Proof.
  intros H. apply (f_equal Path.name) in H.
  rewrite !name_resolve in H by apply shard_name_long.
  rewrite !shard_file_name in H.
  apply String.app_inj, (String.app_inj "_schema_"), app_inj_r in H.
  by apply format_02_inj.
Qed.

Lemma resolve_manifest_fresh cwd output_dir table_prefix n :
  Path.resolve cwd (shard_file output_dir table_prefix n)
  <> Path.resolve cwd (manifest_path output_dir table_prefix).
Proof.
  intros H. apply (f_equal Path.name) in H.
  assert (Hm : Path.name (manifest_path output_dir table_prefix)
               = last_segment table_prefix +:+ "_schema_manifest.json").
  { unfold manifest_path. rewrite name_div; [done|done|simpl; lia]. }
  rewrite name_resolve in H by apply shard_name_long.
  rewrite name_resolve in H by (rewrite Hm, length_app_str; simpl; lia).
  rewrite shard_file_name, Hm in H.
  apply String.app_inj in H.
  change "_schema_manifest.json" with ("_schema_" +:+ "manifest.json") in H.
  apply String.app_inj in H. apply (f_equal Py.last) in H.
  rewrite last_app in H by done. discriminate H.
Qed.

End ShardNames.

(** ** Reading and writing files *)

Section FileSystem.

Implicit Types (fs : filesystem) (p q : Path.t) (content : file).

Lemma fs_lookup fs p : fs !! p = files fs !! locate fs p.
Proof. reflexivity. Qed.

Lemma fs_insert fs p content :
  <[p := content]> fs = mk_fs (cwd fs) (<[locate fs p := content]> (files fs)).
Proof. reflexivity. Qed.

Lemma locate_insert fs p content q : locate (<[p := content]> fs) q = locate fs q.
Proof. reflexivity. Qed.

Lemma lookup_write_eq fs p content : <[p := content]> fs !! p = Some content.
Proof. rewrite fs_lookup, fs_insert. simpl. apply lookup_insert_eq. Qed.

Lemma lookup_write_ne fs p q content :
  locate fs p <> locate fs q -> <[p := content]> fs !! q = fs !! q.
Proof.
  intros Hne. rewrite !fs_lookup, fs_insert. simpl. by apply lookup_insert_ne.
Qed.

(** Two spellings of one file read the same content. *)
Lemma lookup_same_file fs p q : locate fs p = locate fs q -> fs !! p = fs !! q.
Proof. intros H. by rewrite !fs_lookup, H. Qed.

End FileSystem.

(** ** The order of the sort *)

Section SortOrder.

Lemma leb_trans a b c :
  String.leb a b = true -> String.leb b c = true -> String.leb a c = true.
Proof.
  intros H1%Is_true_true H2%Is_true_true. apply Is_true_true.
  exact (@transitivity _ String.le _ a b c H1 H2).
Qed.

Lemma tuple_le_total a b : tuple_le a b = true \/ tuple_le b a = true.
Proof.
  revert b. induction a as [|x a IH]; intros [|y b]; simpl; auto.
  rewrite (String.eqb_sym y x). destruct (String.eqb x y); [apply IH|].
  apply String.leb_total.
Qed.

Lemma tuple_le_trans a b c :
  tuple_le a b = true -> tuple_le b c = true -> tuple_le a c = true.
Proof.
  revert b c. induction a as [|x a IH]; intros [|y b] [|z c]; simpl; try done.
  destruct (String.eqb_spec x y) as [->|Hxy].
  - destruct (String.eqb z y) eqn:E; rewrite String.eqb_sym, E; [apply IH|done].
  - destruct (String.eqb_spec y z) as [->|Hyz].
    + intros H _. by rewrite (proj2 (String.eqb_neq x z)).
    + intros H1 H2. destruct (String.eqb_spec x z) as [->|Hxz].
      * destruct Hxy. by apply String.leb_antisym.
      * by eapply leb_trans.
Qed.

Lemma tuple_le_antisym a b : tuple_le a b = true -> tuple_le b a = true -> a = b.
Proof.
  revert b. induction a as [|x a IH]; intros [|y b]; simpl; try done.
  rewrite (String.eqb_sym y x). destruct (String.eqb_spec x y) as [->|Hxy].
  - intros H1 H2. f_equal. by apply IH.
  - intros H1 H2. destruct Hxy. by apply String.leb_antisym.
Qed.

Lemma sort_key_le_cases k1 k2 :
  sort_key_le k1 k2 = true <->
  length k1 < length k2 \/ (length k1 = length k2 /\ tuple_le k1 k2 = true).
Proof.
  unfold sort_key_le. rewrite orb_true_iff, andb_true_iff.
  by rewrite Nat.ltb_lt, Nat.eqb_eq.
Qed.

Lemma sort_key_le_antisym k1 k2 :
  sort_key_le k1 k2 = true -> sort_key_le k2 k1 = true -> k1 = k2.
Proof.
  rewrite !sort_key_le_cases. intros [?|[? ?]] [?|[? ?]]; try lia.
  by apply tuple_le_antisym.
Qed.

Lemma item_le_total : Total item_le.
Proof.
  intros [k1 r1] [k2 r2]. unfold item_le. simpl. rewrite !sort_key_le_cases.
  destruct (tuple_le_total k1 k2); destruct (lt_eq_lt_dec (length k1) (length k2))
    as [[?|?]|?]; auto.
Qed.

Lemma item_le_trans : Transitive item_le.
Proof.
  intros [k1 r1] [k2 r2] [k3 r3]. unfold item_le. simpl.
  rewrite !sort_key_le_cases. intros [?|[? ?]] [?|[? ?]]; try (left; lia).
  right. split; [lia|]. by eapply tuple_le_trans.
Qed.

Lemma sorted_items_perm (m : groups) : sorted_items m ≡ₚ map_to_list m.
Proof. apply merge_sort_Permutation. Qed.

Lemma merge_sort_sorted items : StronglySorted item_le (merge_sort item_le items).
Proof.
  apply (@StronglySorted_merge_sort _ item_le _ item_le_trans item_le_total).
Qed.

Lemma sorted_items_sorted (m : groups) : StronglySorted item_le (sorted_items m).
Proof. apply merge_sort_sorted. Qed.

Lemma sorted_items_keys (m : groups) : NoDup (sorted_items m).*1.
Proof. rewrite sorted_items_perm. apply NoDup_fst_map_to_list. Qed.

Lemma sorted_items_lookup (m : groups) key records :
  (key, records) ∈ sorted_items m <-> m !! key = Some records.
Proof. rewrite sorted_items_perm. apply elem_of_map_to_list. Qed.

(** Whatever order the items of the mapping are met in, sorting them gives
    the same list. *)
Lemma sorted_items_unique (m : groups) items :
  items ≡ₚ map_to_list m -> merge_sort item_le items = sorted_items m.
Proof.
  intros Hp. apply (StronglySorted_unique_strong item_le).
  - intros [k1 r1] [k2 r2] H1 H2 Hle1 Hle2.
    rewrite merge_sort_Permutation, Hp in H1. apply elem_of_map_to_list in H1.
    apply sorted_items_lookup in H2.
    assert (k1 = k2) as -> by by apply sort_key_le_antisym.
    congruence.
  - apply merge_sort_sorted.
  - apply sorted_items_sorted.
  - by rewrite merge_sort_Permutation, Hp, sorted_items_perm.
Qed.

End SortOrder.

(** ** What the shard writer leaves behind *)

Section ShardWriterFacts.

Variables (BASE_DIR output_dir : Path.t) (table_prefix : string).

Local Abbreviation shard := (shard_file output_dir table_prefix).
Local Abbreviation entry := (entry_of BASE_DIR output_dir table_prefix).
Local Abbreviation shards := (write_shards BASE_DIR output_dir table_prefix).

Lemma write_shards_manifest items k fs manifest :
  (shards (S k) items fs manifest).2
  = manifest ++ imap (fun i => entry (k + i)) items.
Proof.
  revert k fs manifest. induction items as [|[columns records] items IH];
    intros k fs manifest; simpl.
  - by rewrite app_nil_r.
  - rewrite IH, <- app_assoc. simpl. rewrite Nat.add_0_r. do 2 f_equal.
    apply imap_ext. intros i item _. simpl. f_equal. lia.
Qed.

Lemma write_shards_cwd items k fs manifest :
  cwd (shards k items fs manifest).1 = cwd fs.
Proof.
  revert k fs manifest. induction items as [|[columns records] items IH];
    intros k fs manifest; simpl; [done|]. by rewrite IH.
Qed.

Lemma write_shards_other items k fs manifest p :
  (forall i, i < length items -> locate fs p <> locate fs (shard (S (k + i)))) ->
  (shards (S k) items fs manifest).1 !! p = fs !! p.
Proof.
  revert k fs manifest. induction items as [|[columns records] items IH];
    intros k fs manifest Hp; simpl; [done|].
  rewrite IH.
  - apply lookup_write_ne. intros Heq. apply (Hp 0); [simpl; lia|].
    by rewrite Nat.add_0_r.
  - intros i Hi. rewrite !locate_insert.
    replace (S (S k + i)) with (S (k + S i)) by lia.
    apply Hp. simpl. lia.
Qed.

Lemma write_shards_shard items k fs manifest i item :
  items !! i = Some item ->
  (shards (S k) items fs manifest).1 !! shard (S (k + i))
  = Some (dump_records item.2).
Proof.
  revert k fs manifest i. induction items as [|[columns records] items IH];
    intros k fs manifest i; [done|]. destruct i as [|i]; simpl.
  - intros [= <-]. rewrite write_shards_other.
    + rewrite Nat.add_0_r. apply lookup_write_eq.
    + intros j _ Heq. apply resolve_shard_inj in Heq. lia.
  - intros Hi. replace (S (k + S i)) with (S (S k + i)) by lia. by apply IH.
Qed.

Lemma write_jsonl_manifest (m : groups) fs :
  (write_jsonl BASE_DIR output_dir table_prefix m fs).2
  = imap entry (sorted_items m).
Proof.
  unfold write_jsonl.
  pose proof (write_shards_manifest (sorted_items m) 0 fs []) as H.
  destruct (shards 1 (sorted_items m) fs []) as [fs' manifest]. simpl in *.
  by rewrite H.
Qed.

Lemma write_jsonl_shard (m : groups) fs i item :
  sorted_items m !! i = Some item ->
  (write_jsonl BASE_DIR output_dir table_prefix m fs).1 !! shard (S i)
  = Some (dump_records item.2).
Proof.
  intros Hi. unfold write_jsonl.
  pose proof (write_shards_shard (sorted_items m) 0 fs [] i item Hi) as H.
  destruct (shards 1 (sorted_items m) fs []) as [fs' manifest]. simpl in *.
  rewrite lookup_write_ne; [done|].
  intros Heq. symmetry in Heq. by apply resolve_manifest_fresh in Heq.
Qed.

Lemma write_jsonl_manifest_file (m : groups) fs :
  (write_jsonl BASE_DIR output_dir table_prefix m fs).1
    !! manifest_path output_dir table_prefix
  = Some [JsonManifest (write_jsonl BASE_DIR output_dir table_prefix m fs).2].
Proof.
  unfold write_jsonl.
  destruct (shards 1 (sorted_items m) fs []) as [fs' manifest]. simpl.
  apply lookup_write_eq.
Qed.

Lemma manifest_lookup (m : groups) fs i e :
  (write_jsonl BASE_DIR output_dir table_prefix m fs).2 !! i = Some e ->
  exists item, sorted_items m !! i = Some item /\ e = entry i item.
Proof.
  rewrite write_jsonl_manifest, list_lookup_imap.
  destruct (sorted_items m !! i) as [item|]; [|done].
  intros [= <-]. by exists item.
Qed.

End ShardWriterFacts.

(** ** The manifest *)

Section Manifest.

Variables (BASE_DIR output_dir : Path.t) (table_prefix : string).

Lemma manifest_columns (m : groups) fs :
  columns <$> (write_jsonl BASE_DIR output_dir table_prefix m fs).2
  = (sorted_items m).*1.
Proof.
  rewrite write_jsonl_manifest, fmap_imap.
  rewrite (imap_ext _ (fun _ => fst)) by done. apply imap_const.
Qed.

Lemma shard_file_table_name n :
  shard_file output_dir table_prefix n
  = Path.div output_dir (shard_table table_prefix n +:+ ".jsonl").
Proof. unfold shard_file, shard_table. by rewrite !app_assoc_str. Qed.

End Manifest.

(** C3, as worded, fails on the file name: the manifest records the path of
    the shard, directory included, not the bare [table_name.jsonl]. *)
Lemma manifest_filename_has_directory :
  ~ filename_is_table_name
      (write_jsonl (Path.parse "/srv/app") (Path.parse "/srv/app/logs/out") "ops"
         (classify ["2024-01-01 10:00:00 INFO auth login user=bob"]) ∅).2.
Proof.
  intros H.
  specialize (H (mk_entry 1 "ops_schema_01"
                   (BASE_COLUMNS ++ ["user"]) "logs/out/ops_schema_01.jsonl" 1)).
  assert (Hin : mk_entry 1 "ops_schema_01" (BASE_COLUMNS ++ ["user"])
                  "logs/out/ops_schema_01.jsonl" 1
                ∈ (write_jsonl (Path.parse "/srv/app")
                     (Path.parse "/srv/app/logs/out") "ops"
                     (classify ["2024-01-01 10:00:00 INFO auth login user=bob"]) ∅).2).
  { vm_compute. left. }
  specialize (H Hin). vm_compute in H. discriminate H.
Qed.

(** C3, amended. The manifest has one entry for every group, in ascending
    order of (field count, field-name tuple) with no two entries on the same
    tuple.  The entry at position [i] (from 0) has schema_id [i + 1], table
    name prefix_schema_NN with NN the id zero-padded to two digits, the
    field-name tuple of its group as columns and the number of records of
    that group as row count.  Its filename is the path of
    [output_dir / (table_name + ".jsonl")], written relative to the script
    directory when it lies under it and in full otherwise. *)
Theorem manifest_entries (BASE_DIR output_dir : Path.t) (table_prefix : string)
    (records_by_schema : groups) (fs : filesystem) :
  let manifest :=
    (write_jsonl BASE_DIR output_dir table_prefix records_by_schema fs).2 in
  StronglySorted (fun k1 k2 => sort_key_le k1 k2 = true) (columns <$> manifest)
  /\ NoDup (columns <$> manifest)
  /\ columns <$> manifest ≡ₚ (map_to_list records_by_schema).*1
  /\ forall i entry, manifest !! i = Some entry ->
       schema_id entry = S i
       /\ table_name entry = table_prefix +:+ "_schema_" +:+ format_02 (S i)
       /\ filename entry =
          (let shard := Path.div output_dir (table_name entry +:+ ".jsonl") in
           Path.to_str (match Path.relative_to shard BASE_DIR with
                        | Some relative => relative
                        | None => shard
                        end))
       /\ exists records,
            records_by_schema !! columns entry = Some records
            /\ row_count entry = length records.
Proof.
  intros manifest. subst manifest. rewrite manifest_columns.
  split; [|split; [|split]].
  - apply (StronglySorted_fmap _ item_le); [done|apply sorted_items_sorted].
  - apply sorted_items_keys.
  - by rewrite sorted_items_perm.
  - intros i entry (item & Hitem & ->)%manifest_lookup. simpl.
    split; [done|]. split; [done|]. split.
    + unfold manifest_filename. by rewrite shard_file_table_name.
    + exists item.2. split; [|done].
      apply sorted_items_lookup. destruct item. by eapply list_elem_of_lookup_2.
Qed.

Lemma manifest_entries_witness :
  exists entry,
    (write_jsonl (Path.parse "/srv/app") (Path.parse "/srv/app/logs/out") "ops"
       (classify ["2024-01-01 10:00:00 INFO auth login user=bob"]) ∅).2 !! 0
    = Some entry
    /\ schema_id entry = 1
    /\ table_name entry = "ops_schema_01"
    /\ filename entry = "logs/out/ops_schema_01.jsonl".
Proof.
  exists (mk_entry 1 "ops_schema_01" (BASE_COLUMNS ++ ["user"])
            "logs/out/ops_schema_01.jsonl" 1).
  assert (H : (write_jsonl (Path.parse "/srv/app") (Path.parse "/srv/app/logs/out")
                 "ops" (classify ["2024-01-01 10:00:00 INFO auth login user=bob"])
                 ∅).2 !! 0
              = Some (mk_entry 1 "ops_schema_01" (BASE_COLUMNS ++ ["user"])
                        "logs/out/ops_schema_01.jsonl" 1))
    by (vm_compute; reflexivity).
  split; [exact H|].
  destruct (proj2 (proj2 (proj2 (manifest_entries (Path.parse "/srv/app")
              (Path.parse "/srv/app/logs/out") "ops"
              (classify ["2024-01-01 10:00:00 INFO auth login user=bob"]) ∅)))
              0 _ H) as (Hid & Hname & Hfile & _).
  split; [exact Hid|]. split; [exact Hname|]. reflexivity.
Defined.

(** ** Shard files *)

Section ShardFiles.

Variables (BASE_DIR output_dir : Path.t) (table_prefix : string).

Lemma file_records_dump records : file_records (dump_records records) = records.
Proof. induction records as [|rec records IH]; simpl; [done|]. by rewrite IH. Qed.

Lemma file_lines_dump records : file_lines (dump_records records) = length records.
Proof. induction records as [|rec records IH]; simpl; [done|]. by rewrite IH. Qed.

Lemma concat_perm {A} (l1 l2 : list (list A)) :
  l1 ≡ₚ l2 -> concat l1 ≡ₚ concat l2.
Proof.
  induction 1 as [|x l1 l2 _ IH|x y l|l1 l2 l3 _ IH1 _ IH2]; simpl.
  - done.
  - by rewrite IH.
  - rewrite !app_assoc. apply Permutation_app_tail, Permutation_app_comm.
  - by rewrite IH1.
Qed.

Lemma shard_of_entry (m : groups) fs i item :
  sorted_items m !! i = Some item ->
  shard_of output_dir table_prefix
    (write_jsonl BASE_DIR output_dir table_prefix m fs).1
    (entry_of BASE_DIR output_dir table_prefix i item)
  = dump_records item.2.
Proof.
  intros Hi. unfold shard_of. simpl.
  by rewrite (write_jsonl_shard _ _ _ _ _ _ _ Hi).
Qed.

Lemma shard_records (m : groups) fs :
  (fun e => file_records
              (shard_of output_dir table_prefix
                 (write_jsonl BASE_DIR output_dir table_prefix m fs).1 e))
    <$> (write_jsonl BASE_DIR output_dir table_prefix m fs).2
  = (sorted_items m).*2.
Proof.
  apply list_eq. intros i.
  rewrite !list_lookup_fmap, write_jsonl_manifest, list_lookup_imap.
  destruct (sorted_items m !! i) as [item|] eqn:Hi; simpl; [|done].
  by rewrite (shard_of_entry _ _ _ _ Hi), file_records_dump.
Qed.

End ShardFiles.

(** C4. The shard file of a manifest entry holds exactly the records of the
    entry's group, one per line and in the order of the group, and the
    entry's row count is the number of lines of that file.  Read in
    manifest order, the shard files together hold every record of the
    mapping exactly as often as the mapping does; for the mapping built
    from a log these are the successfully parsed records. *)
Theorem shards_hold_all_records (BASE_DIR output_dir : Path.t)
    (table_prefix : string) (records_by_schema : groups) (fs : filesystem) :
  let run := write_jsonl BASE_DIR output_dir table_prefix records_by_schema fs in
  let shard := shard_of output_dir table_prefix run.1 in
  (forall entry, entry ∈ run.2 ->
     file_records (shard entry) = group records_by_schema (columns entry)
     /\ row_count entry = file_lines (shard entry)
     /\ row_count entry = length (file_records (shard entry)))
  /\ concat ((fun entry => file_records (shard entry)) <$> run.2)
     ≡ₚ all_records records_by_schema
  /\ (forall lines, records_by_schema = classify lines ->
        concat ((fun entry => file_records (shard entry)) <$> run.2)
        ≡ₚ parsed lines).
Proof.
  intros run shard. subst run shard.
  assert (Hall : concat ((fun entry => file_records
                    (shard_of output_dir table_prefix
                       (write_jsonl BASE_DIR output_dir table_prefix
                          records_by_schema fs).1 entry))
                  <$> (write_jsonl BASE_DIR output_dir table_prefix
                         records_by_schema fs).2)
                ≡ₚ all_records records_by_schema).
  { rewrite shard_records. unfold all_records.
    apply concat_perm. by rewrite sorted_items_perm. }
  split; [|split; [exact Hall|]].
  - intros entry [i Hi]%list_elem_of_lookup_1.
    apply manifest_lookup in Hi as (item & Hitem & ->).
    rewrite (shard_of_entry _ _ _ _ _ _ _ Hitem).
    rewrite file_records_dump, file_lines_dump. simpl. split; [|done].
    unfold group. destruct item as [key records].
    apply list_elem_of_lookup_2, sorted_items_lookup in Hitem.
    simpl. by rewrite Hitem.
  - intros lines ->. rewrite Hall. apply classify_all_records.
Qed.

Lemma shards_hold_all_records_witness :
  exists entry,
    entry ∈ (write_jsonl (Path.parse "/srv/app") (Path.parse "/srv/app/logs/out")
               "ops" (classify ["2024-01-01 10:00:00 INFO auth login user=bob";
                                "malformed line";
                                "2024-01-01 10:00:05 INFO auth login user=eve"])
               ∅).2
    /\ row_count entry = 2
    /\ row_count entry =
       file_lines
         (shard_of (Path.parse "/srv/app/logs/out") "ops"
            (write_jsonl (Path.parse "/srv/app") (Path.parse "/srv/app/logs/out")
               "ops" (classify ["2024-01-01 10:00:00 INFO auth login user=bob";
                                "malformed line";
                                "2024-01-01 10:00:05 INFO auth login user=eve"])
               ∅).1 entry).
Proof.
  exists (mk_entry 1 "ops_schema_01" (BASE_COLUMNS ++ ["user"])
            "logs/out/ops_schema_01.jsonl" 2).
  assert (Hin : mk_entry 1 "ops_schema_01" (BASE_COLUMNS ++ ["user"])
                  "logs/out/ops_schema_01.jsonl" 2
                ∈ (write_jsonl (Path.parse "/srv/app")
                     (Path.parse "/srv/app/logs/out") "ops"
                     (classify ["2024-01-01 10:00:00 INFO auth login user=bob";
                                "malformed line";
                                "2024-01-01 10:00:05 INFO auth login user=eve"])
                     ∅).2)
    by (vm_compute; left).
  split; [exact Hin|]. split; [reflexivity|].
  exact (proj1 (proj2 (proj1 (shards_hold_all_records (Path.parse "/srv/app")
           (Path.parse "/srv/app/logs/out") "ops" _ ∅) _ Hin))).
Defined.

(** C9. The shard writer does not depend on what the file system held
    before: two runs on the same lines give the same manifest, the same
    content for every shard file named in it and the same manifest file,
    whatever files were there; in particular a second run over the files
    of the first changes nothing in them.  The order of the groups, and so
    the table numbering, does not depend on the order in which the groups
    of the mapping are met.  Parsing the same line twice gives equal
    records. *)
Theorem pipeline_deterministic (BASE_DIR output_dir : Path.t)
    (table_prefix : string) (lines : list string) (fs1 fs2 : filesystem) :
  let run1 := write_jsonl BASE_DIR output_dir table_prefix (classify lines) fs1 in
  let run2 := write_jsonl BASE_DIR output_dir table_prefix (classify lines) fs2 in
  run1.2 = run2.2
  /\ (forall entry, entry ∈ run1.2 ->
        run1.1 !! shard_file output_dir table_prefix (schema_id entry)
        = run2.1 !! shard_file output_dir table_prefix (schema_id entry))
  /\ run1.1 !! manifest_path output_dir table_prefix
     = run2.1 !! manifest_path output_dir table_prefix
  /\ (forall items, items ≡ₚ map_to_list (classify lines) ->
        merge_sort item_le items = sorted_items (classify lines))
  /\ (forall line1 line2, line1 = line2 -> parse_line line1 = parse_line line2).
Proof.
  intros run1 run2. subst run1 run2.
  assert (Hm : (write_jsonl BASE_DIR output_dir table_prefix (classify lines) fs1).2
               = (write_jsonl BASE_DIR output_dir table_prefix (classify lines) fs2).2)
    by by rewrite !write_jsonl_manifest.
  split; [exact Hm|]. split; [|split; [|split]].
  - intros entry [i Hi]%list_elem_of_lookup_1.
    apply manifest_lookup in Hi as (item & Hitem & ->). simpl.
    by rewrite !(write_jsonl_shard _ _ _ _ _ _ _ Hitem).
  - by rewrite !write_jsonl_manifest_file, Hm.
  - apply sorted_items_unique.
  - by intros line1 line2 ->.
Qed.

Lemma pipeline_deterministic_witness :
  (write_jsonl (Path.parse "/srv/app") (Path.parse "/srv/app/logs/out") "ops"
     (classify ["2024-01-01 10:00:00 INFO auth login user=bob"]) ∅).1
    !! shard_file (Path.parse "/srv/app/logs/out") "ops" 1
  = (write_jsonl (Path.parse "/srv/app") (Path.parse "/srv/app/logs/out") "ops"
       (classify ["2024-01-01 10:00:00 INFO auth login user=bob"])
       {[ shard_file (Path.parse "/srv/app/logs/out") "ops" 1 := [Newline] ]}).1
    !! shard_file (Path.parse "/srv/app/logs/out") "ops" 1.
Proof.
  apply (proj1 (proj2 (pipeline_deterministic (Path.parse "/srv/app")
           (Path.parse "/srv/app/logs/out") "ops"
           ["2024-01-01 10:00:00 INFO auth login user=bob"] ∅
           {[ shard_file (Path.parse "/srv/app/logs/out") "ops" 1 := [Newline] ]}))
         (mk_entry 1 "ops_schema_01" (BASE_COLUMNS ++ ["user"])
            "logs/out/ops_schema_01.jsonl" 1)).
  vm_compute. left.
Defined.

(** ** Store sync *)

Section SyncFacts.

Variables (env : Sync.environment) (BASE_DIR : Path.t).

Lemma adds_ret {A} P (a : A) : adds P (Sync.ret a).
Proof. intros trace. exists []. by rewrite app_nil_r. Qed.

Lemma adds_raise {A} P e : adds P (@Sync.raise A e).
Proof. intros trace. exists []. by rewrite app_nil_r. Qed.

Lemma adds_print P text : P (Sync.Print text) = true -> adds P (Sync.print text).
Proof. intros H trace. exists [Sync.Print text]. simpl. by rewrite H. Qed.

Lemma adds_call P e : P e = true -> adds P (Sync.call env e).
Proof.
  intros H trace. exists [e]. unfold Sync.call.
  destruct (Sync.raises env trace e); simpl; by rewrite H.
Qed.

Lemma adds_bind {A B} P (m : Sync.M A) (k : A -> Sync.M B) :
  adds P m -> (forall a, adds P (k a)) -> adds P (Sync.bind m k).
Proof.
  intros Hm Hk trace. unfold Sync.bind. destruct (Hm trace) as (added & E & Hadded).
  destruct (m trace) as [trace' [a|e]]; simpl in *; [|by exists added].
  destruct (Hk a trace') as (added' & E' & Hadded'). subst trace'.
  exists (added ++ added'). rewrite E', app_assoc, forallb_app, Hadded, Hadded'. done.
Qed.

Lemma adds_try_finally {A} P (body : Sync.M A) (cleanup : Sync.M unit) :
  adds P body -> adds P cleanup -> adds P (Sync.try_finally body cleanup).
Proof.
  intros Hb Hc trace. unfold Sync.try_finally.
  destruct (Hb trace) as (added & E & Hadded).
  destruct (body trace) as [trace' result]. simpl in *. subst trace'.
  destruct (Hc (trace ++ added)) as (added' & E' & Hadded').
  exists (added ++ added'). rewrite app_assoc, forallb_app, Hadded, Hadded'.
  destruct (cleanup (trace ++ added)) as [trace'' [[]|e]]; simpl in *; by subst.
Qed.

Lemma adds_count_rows P con table :
  P (Sync.Execute con (Sync.SelectCount table)) = true ->
  adds P (Sync.count_rows env con table).
Proof.
  intros H trace. destruct (adds_call P _ H trace) as (added & E & Hadded).
  exists added. unfold Sync.count_rows.
  by destruct (Sync.call env _ trace) as [trace' [[]|e]].
Qed.

Lemma adds_load_entries P con report manifest :
  (forall s, P (Sync.Execute con s) = true) -> (forall text, P (Sync.Print text) = true) ->
  adds P (Sync.load_entries env BASE_DIR con report manifest).
Proof.
  intros Hexec Hprint. induction manifest as [|entry manifest IH]; simpl.
  - apply adds_ret.
  - apply adds_bind; [|done]. unfold Sync.load_entry.
    repeat (apply adds_bind; [|intros ?]);
      auto using adds_call, adds_count_rows, adds_print.
Qed.

(** The local driver adds nothing on the remote store. *)
Lemma rebuild_duckdb_tables_local manifest duckdb_path table_prefix skip :
  adds (not_on on_motherduck)
    (Sync.rebuild_duckdb_tables env BASE_DIR manifest duckdb_path table_prefix skip).
Proof.
  unfold Sync.rebuild_duckdb_tables. destruct skip; [by apply adds_print|].
  destruct duckdb_path as [p|]; [|by apply adds_print].
  destruct (negb _); [apply adds_raise|].
  apply adds_bind; [by apply adds_call|intros _].
  apply adds_try_finally; [|by apply adds_call].
  apply adds_bind; [by apply adds_call|intros _].
  by apply adds_load_entries.
Qed.

(** The remote driver adds nothing on the local store. *)
Lemma load_into_motherduck_remote manifest table_prefix motherduck_db skip :
  adds (not_on on_duckdb)
    (Sync.load_into_motherduck env BASE_DIR manifest table_prefix motherduck_db skip).
Proof.
  unfold Sync.load_into_motherduck. destruct skip; [by apply adds_print|].
  destruct (Sync.MOTHERDUCK_TOKEN env) as [[|c tok]|]; try by apply adds_print.
  destruct (negb _); [by apply adds_print|].
  apply adds_bind; [by apply adds_print|intros _].
  apply adds_bind; [by apply adds_call|intros _].
  apply adds_try_finally.
  - apply adds_bind; [by apply adds_call|intros _]. by apply adds_load_entries.
  - apply adds_bind; [by apply adds_call|intros _]. by apply adds_print.
Qed.

(** An error at one entry ends the loop: the entries behind it add
    nothing. *)
Lemma load_entries_abort con report before behind trace trace' e :
  Sync.load_entries env BASE_DIR con report before trace = (trace', Sync.Raised e) ->
  Sync.load_entries env BASE_DIR con report (before ++ behind) trace
  = (trace', Sync.Raised e).
Proof.
  revert trace. induction before as [|entry before IH]; intros trace; simpl.
  - by unfold Sync.ret.
  - unfold Sync.bind.
    destruct (Sync.load_entry env BASE_DIR con report entry trace) as [tr1 [[]|e1]];
      [apply IH|done].
Qed.

End SyncFacts.

(** C1, as worded, fails: when the local database file is missing, and
    when a load into the local store raises, the run ends there and never
    connects to the remote store, although a token and a database name are
    at hand and nothing is skipped. *)
Lemma local_failure_stops_run :
  ~ drivers_isolated env_no_database (Path.parse "/srv/app") one_shard
      (Path.parse "/srv/db.duckdb") "ops" "analytics"
  /\ ~ drivers_isolated env_failing_load (Path.parse "/srv/app") one_shard
         (Path.parse "/srv/db.duckdb") "ops" "analytics".
Proof.
  split; intros H.
  - destruct H as (db & token & Hin); [by exists "secret"|done|].
    vm_compute in Hin. by apply elem_of_nil in Hin.
  - destruct H as (db & token & Hin); [by exists "secret"|done|].
    vm_compute in Hin. apply list_elem_of_In in Hin. simpl in Hin.
    intuition discriminate.
Qed.

(** C1, amended. The local driver runs first and adds nothing on the
    remote store, whether it returns or raises; the remote driver adds
    nothing on the local store, so a failure of the remote driver leaves
    everything the local driver did in place.  When the local driver
    returns, whether it loaded or skipped, the remote driver is run next
    exactly as on its own.  When the local driver raises (the database file
    is missing, or a database call fails), the run ends with that error and
    the trace of the local driver: the remote driver is not run.  Within a
    driver an error at one entry aborts that driver's remaining loads. *)
Theorem sync_failure_propagates (env : Sync.environment) (BASE_DIR : Path.t)
    (manifest : list manifest_entry) (duckdb_path : option Path.t)
    (table_prefix : string) (skip_duckdb : bool) (motherduck_db : string)
    (skip_motherduck : bool) (trace : list Sync.event) :
  let local :=
    Sync.rebuild_duckdb_tables env BASE_DIR manifest duckdb_path table_prefix
      skip_duckdb trace in
  let whole :=
    Sync.sync env BASE_DIR manifest duckdb_path table_prefix skip_duckdb
      motherduck_db skip_motherduck trace in
  (exists added, local.1 = trace ++ added
                 /\ forallb (not_on on_motherduck) added = true)
  /\ (forall trace0, exists added,
        (Sync.load_into_motherduck env BASE_DIR manifest table_prefix
           motherduck_db skip_motherduck trace0).1 = trace0 ++ added
        /\ forallb (not_on on_duckdb) added = true)
  /\ (forall trace', local = (trace', Sync.Returned tt) ->
        whole = Sync.load_into_motherduck env BASE_DIR manifest table_prefix
                  motherduck_db skip_motherduck trace')
  /\ (forall trace' e, local = (trace', Sync.Raised e) ->
        whole = (trace', Sync.Raised e)
        /\ exists added, trace' = trace ++ added
                         /\ forallb (not_on on_motherduck) added = true)
  /\ (exists added, whole.1 = local.1 ++ added
                    /\ forallb (not_on on_duckdb) added = true)
  /\ (forall con report before behind trace0 trace1 e,
        Sync.load_entries env BASE_DIR con report before trace0
        = (trace1, Sync.Raised e) ->
        Sync.load_entries env BASE_DIR con report (before ++ behind) trace0
        = (trace1, Sync.Raised e)).
Proof.
  intros local whole. subst local whole. unfold Sync.sync, Sync.bind.
  split; [|split; [|split; [|split; [|split]]]].
  - apply rebuild_duckdb_tables_local.
  - apply load_into_motherduck_remote.
  - by intros trace' ->.
  - intros trace' e Hl.
    destruct (rebuild_duckdb_tables_local env BASE_DIR manifest duckdb_path
                table_prefix skip_duckdb trace) as (added & E & Hadded).
    rewrite Hl in *. split; [done|]. by exists added.
  - destruct (Sync.rebuild_duckdb_tables _ _ _ _ _ _ trace) as [trace' [[]|e]]; simpl.
    + apply load_into_motherduck_remote.
    + exists []. by rewrite app_nil_r.
  - apply load_entries_abort.
Qed.

Lemma sync_failure_propagates_witness :
  Sync.sync env_no_database (Path.parse "/srv/app") one_shard
    (Some (Path.parse "/srv/db.duckdb")) "ops" false "analytics" false []
  = ([], Sync.Raised (Sync.FileNotFoundError
       "DuckDB database not found. Please run load_data_to_duckdb.py first.")).
Proof.
  apply (proj1 (proj1 (proj2 (proj2 (proj2 (sync_failure_propagates env_no_database
           (Path.parse "/srv/app") one_shard (Some (Path.parse "/srv/db.duckdb"))
           "ops" false "analytics" false [])))) _ _ eq_refl)).
Defined.

(** * Further properties *)

(** ** The sync drivers: order of loads, drops, the connection *)

Section SyncOrder.

Variables (env : Sync.environment) (BASE_DIR : Path.t).

Lemma loads_app tr1 tr2 : loads (tr1 ++ tr2) = loads tr1 ++ loads tr2.
Proof. apply omap_app. Qed.

Lemma drops_first_app previous tr1 tr2 :
  drops_first previous (tr1 ++ tr2)
  = drops_first previous tr1 && drops_first (from_option Some previous (last tr1)) tr2.
Proof.
  revert previous. induction tr1 as [|e tr1 IH]; intros previous; simpl; [done|].
  rewrite IH, andb_assoc. do 2 f_equal. destruct tr1 as [|x tr1]; [done|].
  change (last (e :: x :: tr1)) with (last (x :: tr1)).
  destruct (last (x :: tr1)) eqn:E; [done|]. by apply last_None in E.
Qed.

(** What loading one entry adds: the drop, the load, the count and the
    report, cut short where a call raises. *)
Lemma load_entry_added con report entry trace :
  exists added out,
    Sync.load_entry env BASE_DIR con report entry trace = (trace ++ added, out)
    /\ (loads added = [table_name entry]
        \/ (loads added = [] /\ exists e, out = Sync.Raised e))
    /\ forallb statement_or_print added = true
    /\ (forall previous, drops_first previous added = true)
    /\ (out = Sync.Returned tt -> exists text, last added = Some (Sync.Print text)).
Proof.
  unfold Sync.load_entry, Sync.bind, Sync.count_rows, Sync.call, Sync.print.
  destruct (Sync.raises env trace _); simpl.
  { eexists [_], _. split; [done|]. split; [right; eauto|]. split; [done|].
    split; [done|]. by intros [=]. }
  destruct (Sync.raises env (trace ++ [_]) _); simpl.
  { eexists [_; _], _. rewrite <- app_assoc. split; [done|]. split; [by left|].
    split; [done|]. split; [|by intros [=]].
    intros previous. simpl. by rewrite bool_decide_eq_true_2. }
  destruct (Sync.raises env ((trace ++ [_]) ++ [_]) _); simpl.
  { eexists [_; _; _], _. rewrite <- !app_assoc. split; [done|]. split; [by left|].
    split; [done|]. split; [|by intros [=]].
    intros previous. simpl. by rewrite bool_decide_eq_true_2. }
  eexists [_; _; _; _], _. rewrite <- !app_assoc. split; [done|]. split; [by left|].
  split; [done|]. split; [|by eauto].
  intros previous. simpl. by rewrite bool_decide_eq_true_2.
Qed.

Lemma load_entries_added con report manifest trace :
  exists added out,
    Sync.load_entries env BASE_DIR con report manifest trace = (trace ++ added, out)
    /\ loads added `prefix_of` (table_name <$> manifest)
    /\ (out = Sync.Returned tt -> loads added = table_name <$> manifest)
    /\ forallb statement_or_print added = true
    /\ (forall previous, drops_first previous added = true).
Proof.
  revert trace. induction manifest as [|entry manifest IH]; intros trace; simpl.
  - exists [], (Sync.Returned tt). by rewrite app_nil_r.
  - unfold Sync.bind.
    destruct (load_entry_added con report entry trace)
      as (added1 & out1 & -> & Hloads & Hsp & Hdrops & Hlast).
    destruct out1 as [[]|e].
    + destruct Hloads as [Hloads|(_ & e & [=])].
      destruct (IH (trace ++ added1)) as (added2 & out2 & -> & Hpre & Hall & Hsp2 & Hdrops2).
      exists (added1 ++ added2), out2. rewrite app_assoc. split; [done|].
      rewrite loads_app, Hloads, forallb_app, Hsp, Hsp2. simpl.
      split; [by apply prefix_cons|]. split; [by intros ->%Hall|]. split; [done|].
      intros previous. rewrite drops_first_app, Hdrops, Hdrops2. done.
    + exists added1, (Sync.Raised e). split; [done|]. split.
      * destruct Hloads as [->|[-> _]]; [|apply prefix_nil].
        by apply prefix_cons, prefix_nil.
      * by split.
Qed.

Lemma loads_close added con tail :
  loads tail = [] -> loads (added ++ Sync.Close con :: tail) = loads added.
Proof.
  intros H. rewrite loads_app.
  change (loads (Sync.Close con :: tail)) with (loads tail).
  by rewrite H, app_nil_r.
Qed.

(** The part the two drivers share: connect, then drop the umbrella table
    and load the entries, then clean up whatever happened. *)
Lemma session_added con report table_prefix manifest (cleanup : Sync.M unit)
    (T : list Sync.event -> Prop) trace :
  (forall tail, T tail -> tail = [] \/ exists text, tail = [Sync.Print text]) ->
  (forall trace0, exists tail out,
      cleanup trace0 = (trace0 ++ Sync.Close con :: tail, out) /\ T tail) ->
  exists added out,
    Sync.bind (Sync.call env (Sync.Connect con))
      (fun _ =>
         Sync.try_finally
           (Sync.bind
              (Sync.call env (Sync.Execute con (Sync.DropTableIfExists table_prefix)))
              (fun _ => Sync.load_entries env BASE_DIR con report manifest))
           cleanup) trace
    = (trace ++ added, out)
    /\ loads added `prefix_of` (table_name <$> manifest)
    /\ (out = Sync.Returned tt -> loads added = table_name <$> manifest)
    /\ (forall previous, drops_first previous added = true)
    /\ (Sync.raises env trace (Sync.Connect con) = true ->
        added = [Sync.Connect con])
    /\ (Sync.raises env trace (Sync.Connect con) = false ->
        exists mid tail,
          added = Sync.Connect con :: mid ++ Sync.Close con :: tail
          /\ forallb statement_or_print mid = true
          /\ T tail).
Proof.
  intros HT Hclean. unfold Sync.bind at 1. unfold Sync.call at 1.
  destruct (Sync.raises env trace (Sync.Connect con)) eqn:Hc.
  { exists [Sync.Connect con], (Sync.Raised (Sync.DatabaseError (Sync.Connect con))).
    split; [done|]. split; [apply prefix_nil|]. by repeat split. }
  unfold Sync.try_finally, Sync.bind, Sync.call.
  destruct (Sync.raises env (trace ++ [Sync.Connect con]) _) eqn:Hd.
  - destruct (Hclean ((trace ++ [Sync.Connect con])
                        ++ [Sync.Execute con (Sync.DropTableIfExists table_prefix)]))
      as (tail & outc & -> & HTtail).
    pose proof (HT tail HTtail) as Htail.
    assert (Hl : loads tail = []) by by destruct Htail as [->|[text ->]].
    exists (Sync.Connect con
              :: [Sync.Execute con (Sync.DropTableIfExists table_prefix)]
              ++ Sync.Close con :: tail),
      (match outc with
       | Sync.Returned _ =>
           Sync.Raised (Sync.DatabaseError
             (Sync.Execute con (Sync.DropTableIfExists table_prefix)))
       | Sync.Raised e => Sync.Raised e
       end).
    split; [rewrite <- !app_assoc; by destruct outc|].
    split; [simpl; rewrite Hl; apply prefix_nil|].
    split; [by destruct outc as [[]|]|].
    split; [|split; [done|]].
    + intros previous. simpl. by destruct Htail as [->|[text ->]].
    + intros _. by eexists [_], tail.
  - destruct (load_entries_added con report manifest
                ((trace ++ [Sync.Connect con])
                   ++ [Sync.Execute con (Sync.DropTableIfExists table_prefix)]))
      as (added & oute & -> & Hpre & Hall & Hsp & Hdrops).
    destruct (Hclean (((trace ++ [Sync.Connect con])
                         ++ [Sync.Execute con (Sync.DropTableIfExists table_prefix)])
                        ++ added))
      as (tail & outc & -> & HTtail).
    pose proof (HT tail HTtail) as Htail.
    assert (Hl : loads tail = []) by by destruct Htail as [->|[text ->]].
    exists (Sync.Connect con
              :: (Sync.Execute con (Sync.DropTableIfExists table_prefix) :: added)
              ++ Sync.Close con :: tail),
      (match outc with
       | Sync.Returned _ => oute
       | Sync.Raised e => Sync.Raised e
       end).
    split; [rewrite <- !app_assoc; by destruct outc|].
    assert (Hloads : loads (Sync.Connect con
                :: (Sync.Execute con (Sync.DropTableIfExists table_prefix) :: added)
                ++ Sync.Close con :: tail) = loads added)
      by exact (loads_close added con tail Hl).
    rewrite Hloads.
    split; [done|].
    split; [destruct outc as [[]|]; [exact Hall|done]|].
    split; [|split; [done|]].
    + intros previous. simpl. rewrite drops_first_app, Hdrops. simpl.
      by destruct Htail as [->|[text ->]].
    + intros _. eexists (_ :: added), tail. split; [done|]. by split.
Qed.

Lemma close_cleanup con trace0 :
  exists tail out,
    Sync.call env (Sync.Close con) trace0 = (trace0 ++ Sync.Close con :: tail, out)
    /\ tail = [].
Proof.
  unfold Sync.call. destruct (Sync.raises env trace0 _); eexists [], _; eauto.
Qed.

Lemma close_print_cleanup con text trace0 :
  exists tail out,
    Sync.bind (Sync.call env (Sync.Close con)) (fun _ => Sync.print text) trace0
    = (trace0 ++ Sync.Close con :: tail, out)
    /\ (tail = [] \/ tail = [Sync.Print text]).
Proof.
  unfold Sync.bind, Sync.call, Sync.print.
  destruct (Sync.raises env trace0 _).
  - eexists [], _. eauto.
  - eexists [Sync.Print text], _. rewrite <- app_assoc. eauto.
Qed.

Lemma local_driver_added manifest duckdb_path table_prefix skip trace :
  exists added out,
    Sync.rebuild_duckdb_tables env BASE_DIR manifest duckdb_path table_prefix skip trace
    = (trace ++ added, out)
    /\ loads added `prefix_of` (table_name <$> manifest)
    /\ (forall previous, drops_first previous added = true)
    /\ (skip = false -> is_Some duckdb_path -> out = Sync.Returned tt ->
        loads added = table_name <$> manifest).
Proof.
  unfold Sync.rebuild_duckdb_tables. destruct skip.
  { eexists [_], _. split; [done|]. split; [apply prefix_nil|]. by split. }
  destruct duckdb_path as [p|].
  2:{ eexists [_], _. split; [done|]. split; [apply prefix_nil|].
      split; [done|]. by intros _ [? [=]]. }
  destruct (negb _).
  { exists [], (Sync.Raised (Sync.FileNotFoundError
      "DuckDB database not found. Please run load_data_to_duckdb.py first.")).
    unfold Sync.raise. rewrite app_nil_r. split; [done|].
    split; [apply prefix_nil|]. by split. }
  destruct (session_added (Sync.DuckDB p) EmptyString table_prefix manifest
              (Sync.call env (Sync.Close (Sync.DuckDB p))) (fun tail => tail = []) trace
              (fun tail H => or_introl H) (close_cleanup (Sync.DuckDB p)))
    as (added & out & Heq & Hpre & Hall & Hdrops & _).
  exists added, out. split; [exact Heq|]. split; [done|]. split; [done|]. auto.
Qed.

Lemma remote_driver_added manifest table_prefix motherduck_db skip trace :
  exists added out,
    Sync.load_into_motherduck env BASE_DIR manifest table_prefix motherduck_db skip trace
    = (trace ++ added, out)
    /\ loads added `prefix_of` (table_name <$> manifest)
    /\ (forall previous, drops_first previous added = true)
    /\ (skip = false ->
        (exists c token, Sync.MOTHERDUCK_TOKEN env = Some (String c token)) ->
        motherduck_db <> EmptyString -> out = Sync.Returned tt ->
        loads added = table_name <$> manifest).
Proof.
  unfold Sync.load_into_motherduck. destruct skip.
  { eexists [_], _. split; [done|]. split; [apply prefix_nil|]. by split. }
  destruct (Sync.MOTHERDUCK_TOKEN env) as [[|c token]|].
  1,3: eexists [_], _; (split; [done|]); (split; [apply prefix_nil|]);
       (split; [done|]); by intros _ (? & ? & [=]).
  destruct motherduck_db as [|d db]; simpl.
  { eexists [_], _. split; [done|]. split; [apply prefix_nil|]. by split. }
  unfold Sync.bind at 1. unfold Sync.print at 1.
  destruct (session_added (Sync.MotherDuck (String d db) (String c token))
              "[MotherDuck] " table_prefix manifest
              (Sync.bind (Sync.call env
                            (Sync.Close (Sync.MotherDuck (String d db) (String c token))))
                 (fun _ => Sync.print "MotherDuck load complete."))
              (fun tail => tail = [] \/ tail = [Sync.Print "MotherDuck load complete."])
              (trace ++ [Sync.Print ("Connecting to MotherDuck database: "
                                       +:+ String d db)])
              (fun tail H => match H with
                             | or_introl H0 => or_introl H0
                             | or_intror H1 => or_intror (ex_intro _ _ H1)
                             end)
              (close_print_cleanup _ _))
    as (added & out & Heq & Hpre & Hall & Hdrops & _).
  exists (Sync.Print ("Connecting to MotherDuck database: " +:+ String d db) :: added),
    out.
  split; [by rewrite Heq, <- app_assoc|]. split; [done|].
  split; [intros previous; simpl; apply Hdrops|]. auto.
Qed.

End SyncOrder.

(** X1. Whatever fails and whenever, each driver issues its bulk loads in
    manifest order without skipping an entry: the tables it issued a load
    for are a leading part of the manifest's table names.  Every bulk load
    directly follows the drop of the same table on the same connection. *)
Theorem drivers_load_in_manifest_order (env : Sync.environment) (BASE_DIR : Path.t)
    (manifest : list manifest_entry) (duckdb_path : option Path.t)
    (table_prefix motherduck_db : string) (skip : bool) (trace : list Sync.event) :
  (exists added out,
     Sync.rebuild_duckdb_tables env BASE_DIR manifest duckdb_path table_prefix
       skip trace = (trace ++ added, out)
     /\ loads added `prefix_of` (table_name <$> manifest)
     /\ drops_first None added = true)
  /\ (exists added out,
        Sync.load_into_motherduck env BASE_DIR manifest table_prefix motherduck_db
          skip trace = (trace ++ added, out)
        /\ loads added `prefix_of` (table_name <$> manifest)
        /\ drops_first None added = true).
Proof.
  split.
  - destruct (local_driver_added env BASE_DIR manifest duckdb_path table_prefix
                skip trace) as (added & out & ? & ? & ? & _).
    exists added, out. auto.
  - destruct (remote_driver_added env BASE_DIR manifest table_prefix motherduck_db
                skip trace) as (added & out & ? & ? & ? & _).
    exists added, out. auto.
Qed.

(** X2. A driver that was not skipped and returns without an error has
    issued a bulk load for every manifest entry, in manifest order. *)
Theorem returned_driver_loaded_all (env : Sync.environment) (BASE_DIR : Path.t)
    (manifest : list manifest_entry) (table_prefix : string)
    (trace : list Sync.event) :
  (forall duckdb_path trace',
     Sync.rebuild_duckdb_tables env BASE_DIR manifest (Some duckdb_path)
       table_prefix false trace = (trace', Sync.Returned tt) ->
     exists added, trace' = trace ++ added
                   /\ loads added = table_name <$> manifest)
  /\ (forall motherduck_db trace',
        (exists c token, Sync.MOTHERDUCK_TOKEN env = Some (String c token)) ->
        motherduck_db <> EmptyString ->
        Sync.load_into_motherduck env BASE_DIR manifest table_prefix motherduck_db
          false trace = (trace', Sync.Returned tt) ->
        exists added, trace' = trace ++ added
                      /\ loads added = table_name <$> manifest).
Proof.
  split.
  - intros p trace' Hrun.
    destruct (local_driver_added env BASE_DIR manifest (Some p) table_prefix
                false trace) as (added & out & Heq & _ & _ & Hall).
    rewrite Hrun in Heq. injection Heq as -> <-. exists added. split; [done|].
    apply Hall; eauto.
  - intros db trace' Htoken Hdb Hrun.
    destruct (remote_driver_added env BASE_DIR manifest table_prefix db
                false trace) as (added & out & Heq & _ & _ & Hall).
    rewrite Hrun in Heq. injection Heq as -> <-. exists added. split; [done|].
    by apply Hall.
Qed.

Lemma returned_driver_loaded_all_witness :
  exists added,
    (Sync.rebuild_duckdb_tables env_quiet (Path.parse "/srv/app") one_shard
       (Some (Path.parse "/srv/db.duckdb")) "ops" false []).1 = [] ++ added
    /\ loads added = ["ops_schema_01"].
Proof.
  destruct (proj1 (returned_driver_loaded_all env_quiet (Path.parse "/srv/app")
                     one_shard "ops" [])
              (Path.parse "/srv/db.duckdb")
              (Sync.rebuild_duckdb_tables env_quiet (Path.parse "/srv/app") one_shard
                 (Some (Path.parse "/srv/db.duckdb")) "ops" false []).1)
    as (added & Heq & Hloads); [by vm_compute|].
  exists added. split; [exact Heq|exact Hloads].
Defined.

(** X3. Once a driver has connected, it closes the connection on every
    way out: whatever call raises in between, the events the driver adds
    are the connect, then statements and reports only, then the close as
    the last database call (for the remote driver followed at most by the
    closing report).  When the connect itself raises, nothing follows
    it. *)
Theorem connection_closed (env : Sync.environment) (BASE_DIR : Path.t)
    (manifest : list manifest_entry) (table_prefix : string)
    (trace : list Sync.event) :
  (forall duckdb_path,
     Sync.path_exists env duckdb_path = true ->
     let con := Sync.DuckDB duckdb_path in
     exists added out,
       Sync.rebuild_duckdb_tables env BASE_DIR manifest (Some duckdb_path)
         table_prefix false trace = (trace ++ added, out)
       /\ (Sync.raises env trace (Sync.Connect con) = true ->
           added = [Sync.Connect con])
       /\ (Sync.raises env trace (Sync.Connect con) = false ->
           exists mid,
             added = Sync.Connect con :: mid ++ [Sync.Close con]
             /\ forallb statement_or_print mid = true))
  /\ (forall motherduck_db c token,
        Sync.MOTHERDUCK_TOKEN env = Some (String c token) ->
        motherduck_db <> EmptyString ->
        let con := Sync.MotherDuck motherduck_db (String c token) in
        let opening :=
          Sync.Print ("Connecting to MotherDuck database: " +:+ motherduck_db) in
        exists added out,
          Sync.load_into_motherduck env BASE_DIR manifest table_prefix motherduck_db
            false trace = (trace ++ opening :: added, out)
          /\ (Sync.raises env (trace ++ [opening]) (Sync.Connect con) = true ->
              added = [Sync.Connect con])
          /\ (Sync.raises env (trace ++ [opening]) (Sync.Connect con) = false ->
              exists mid tail,
                added = Sync.Connect con :: mid ++ Sync.Close con :: tail
                /\ forallb statement_or_print mid = true
                /\ (tail = [] \/ tail = [Sync.Print "MotherDuck load complete."]))).
Proof.
  split.
  - intros p Hp con. unfold Sync.rebuild_duckdb_tables. rewrite Hp. simpl.
    destruct (session_added env BASE_DIR con EmptyString table_prefix manifest
                (Sync.call env (Sync.Close con)) (fun tail => tail = []) trace
                (fun tail H => or_introl H) (close_cleanup env con))
      as (added & out & Heq & _ & _ & _ & Hraised & Hclosed).
    exists added, out. split; [exact Heq|]. split; [exact Hraised|].
    intros Hc. destruct (Hclosed Hc) as (mid & tail & -> & Hmid & ->). by exists mid.
  - intros db c token Htoken Hdb con opening.
    unfold Sync.load_into_motherduck. rewrite Htoken.
    destruct db as [|d db]; [done|]. simpl.
    unfold Sync.bind at 1. unfold Sync.print at 1.
    fold con. fold opening.
    destruct (session_added env BASE_DIR con "[MotherDuck] " table_prefix manifest
                (Sync.bind (Sync.call env (Sync.Close con))
                   (fun _ => Sync.print "MotherDuck load complete."))
                (fun tail => tail = [] \/ tail = [Sync.Print "MotherDuck load complete."])
                (trace ++ [opening])
                (fun tail H => match H with
                               | or_introl H0 => or_introl H0
                               | or_intror H1 => or_intror (ex_intro _ _ H1)
                               end)
                (close_print_cleanup env con _))
      as (added & out & Heq & _ & _ & _ & Hraised & Hclosed).
    exists added, out. split; [by rewrite Heq, <- app_assoc|]. by split.
Qed.

Lemma connection_closed_witness :
  exists mid out,
    Sync.rebuild_duckdb_tables env_failing_load (Path.parse "/srv/app") one_shard
      (Some (Path.parse "/srv/db.duckdb")) "ops" false []
    = (Sync.Connect (Sync.DuckDB (Path.parse "/srv/db.duckdb"))
         :: mid ++ [Sync.Close (Sync.DuckDB (Path.parse "/srv/db.duckdb"))], out)
    /\ forallb statement_or_print mid = true.
Proof.
  destruct (proj1 (connection_closed env_failing_load (Path.parse "/srv/app")
                     one_shard "ops" [])
              (Path.parse "/srv/db.duckdb") eq_refl)
    as (added & out & Heq & _ & Hclosed).
  destruct (Hclosed eq_refl) as (mid & Hadded & Hmid).
  exists mid, out. rewrite Hadded in Heq. split; [exact Heq|exact Hmid].
Defined.

(** ** The shard writer: what it leaves alone, numbering, counts *)

Section ShardWriterMore.

Variables (BASE_DIR output_dir : Path.t) (table_prefix : string).

Lemma sorted_items_length (m : groups) : length (sorted_items m) = size m.
Proof. by rewrite sorted_items_perm, length_map_to_list. Qed.

Lemma write_jsonl_cwd (m : groups) fs :
  cwd (write_jsonl BASE_DIR output_dir table_prefix m fs).1 = cwd fs.
Proof.
  unfold write_jsonl.
  pose proof (write_shards_cwd BASE_DIR output_dir table_prefix
                (sorted_items m) 1 fs []) as H.
  by destruct (write_shards _ _ _ 1 (sorted_items m) fs []) as [fs' manifest].
Qed.

Lemma write_jsonl_other (m : groups) fs p :
  (forall i, 1 <= i <= size m ->
     locate fs p <> locate fs (shard_file output_dir table_prefix i)) ->
  locate fs p <> locate fs (manifest_path output_dir table_prefix) ->
  (write_jsonl BASE_DIR output_dir table_prefix m fs).1 !! p = fs !! p.
Proof.
  intros Hshard Hmanifest. unfold write_jsonl.
  pose proof (write_shards_other BASE_DIR output_dir table_prefix
                (sorted_items m) 0 fs [] p) as H.
  pose proof (write_shards_cwd BASE_DIR output_dir table_prefix
                (sorted_items m) 1 fs []) as Hcwd.
  destruct (write_shards _ _ _ 1 (sorted_items m) fs []) as [fs' manifest].
  simpl in *. rewrite lookup_write_ne.
  - apply H. intros i Hi. apply Hshard. rewrite sorted_items_length in Hi. lia.
  - unfold locate in *. rewrite Hcwd. by intros Heq.
Qed.

Lemma shard_table_inj i j :
  shard_table table_prefix i = shard_table table_prefix j -> i = j.
Proof.
  unfold shard_table. intros H.
  by apply String.app_inj, (String.app_inj "_schema_"), format_02_inj in H.
Qed.

Lemma manifest_ids (m : groups) fs :
  schema_id <$> (write_jsonl BASE_DIR output_dir table_prefix m fs).2
  = seq 1 (size m).
Proof.
  rewrite write_jsonl_manifest, fmap_imap, <- sorted_items_length.
  rewrite (imap_ext _ (fun i _ => S (0 + i))) by done.
  rewrite (imap_seq (sorted_items m) S 0). apply fmap_S_seq.
Qed.

Lemma manifest_tables (m : groups) fs :
  table_name <$> (write_jsonl BASE_DIR output_dir table_prefix m fs).2
  = shard_table table_prefix <$> seq 1 (size m).
Proof.
  rewrite <- (manifest_ids m fs), write_jsonl_manifest, <- list_fmap_compose.
  apply list_fmap_ext. intros i e (item & _ & ->)%list_lookup_imap_Some. done.
Qed.

Lemma sum_lengths {A} (l : list (list A)) :
  sum_list (length <$> l) = length (concat l).
Proof.
  induction l as [|x l IH]; simpl; [done|]. rewrite length_app. by f_equal.
Qed.

Lemma manifest_row_counts (m : groups) fs :
  row_count <$> (write_jsonl BASE_DIR output_dir table_prefix m fs).2
  = length <$> (sorted_items m).*2.
Proof.
  rewrite write_jsonl_manifest, fmap_imap, <- list_fmap_compose.
  rewrite (imap_ext _ (fun _ => length ∘ snd)) by done. apply imap_const.
Qed.

End ShardWriterMore.

Section PipelineInvariants.

Lemma parse_line_keys line rec :
  parse_line line = Some rec ->
  BASE_COLUMNS `prefix_of` schema_key rec /\ NoDup (schema_key rec).
Proof.
  intros H.
  destruct (Py.split line) as [|p0 [|p1 [|p2 [|p3 [|p4 [|p5 rest]]]]]] eqn:E;
    try (unfold parse_line, payload_record in H; rewrite split_strip, E in H;
         discriminate H).
  rewrite (parse_line_split _ _ _ _ _ _ _ _ E) in H. injection H as <-.
  split; [by eapply parsed_prefix|by eapply parsed_NoDup].
Qed.

Lemma classify_empty lines :
  (forall line, line ∈ lines -> parse_line line = None) -> classify lines = ∅.
Proof.
  induction lines as [|line lines IH] using rev_ind; intros H; [done|].
  rewrite classify_snoc, classify_line_spec, H by (apply elem_of_app; right; left).
  apply IH. intros l Hl. apply H, elem_of_app. by left.
Qed.

Lemma classify_skip before line after :
  parse_line line = None ->
  classify (before ++ line :: after) = classify (before ++ after).
Proof.
  intros H. unfold classify. rewrite !fold_left_app. simpl.
  by rewrite classify_line_spec, H.
Qed.

Lemma classify_key lines key records :
  classify lines !! key = Some records ->
  exists rec, rec ∈ records /\ rec ∈ parsed lines /\ schema_key rec = key.
Proof.
  intros H. pose proof (classify_group lines key) as Hg.
  unfold group in Hg. rewrite H in Hg. simpl in Hg.
  pose proof (classify_nonempty _ _ _ H) as Hne.
  destruct records as [|rec records]; [done|]. exists rec.
  assert (Hin : rec ∈ filter (fun r => schema_key r = key) (parsed lines))
    by (rewrite <- Hg; left).
  apply list_elem_of_filter in Hin as [? ?]. split; [left|done].
Qed.

End PipelineInvariants.

(** X4. The shard writer changes no file but the shards it numbers 1 to the
    number of groups and the manifest file.  A path that leads to none of
    these files, however it is spelt ([..] steps in the path or in the
    table prefix, a relative path), has the content it had before; so has
    the shard with a higher number, which an earlier run over more schemas
    may have left behind.  A path that leads to one of the written files
    reads what was written there, whatever its spelling.  Files are told
    apart by the path they resolve to; links are outside the model. *)
Theorem other_files_untouched (BASE_DIR output_dir : Path.t) (table_prefix : string)
    (records_by_schema : groups) (fs : filesystem) :
  let run := write_jsonl BASE_DIR output_dir table_prefix records_by_schema fs in
  (forall p,
     (forall i, 1 <= i <= size records_by_schema ->
        locate fs p <> locate fs (shard_file output_dir table_prefix i)) ->
     locate fs p <> locate fs (manifest_path output_dir table_prefix) ->
     run.1 !! p = fs !! p)
  /\ (forall k, size records_by_schema < k ->
        run.1 !! shard_file output_dir table_prefix k
        = fs !! shard_file output_dir table_prefix k)
  /\ (forall p q, locate fs p = locate fs q -> run.1 !! p = run.1 !! q)
  /\ cwd run.1 = cwd fs.
Proof.
  intros run. subst run. split; [apply write_jsonl_other|]. split; [|split].
  - intros k Hk. apply write_jsonl_other.
    + intros i Hi Heq. apply resolve_shard_inj in Heq. lia.
    + apply resolve_manifest_fresh.
  - intros p q Heq. apply lookup_same_file. unfold locate in *.
    by rewrite write_jsonl_cwd.
  - apply write_jsonl_cwd.
Qed.

Lemma other_files_untouched_witness :
  (write_jsonl (Path.parse "/srv/app") (Path.parse "/srv/app/logs/out") "../ops"
     (classify ["2024-01-01 10:00:00 INFO auth login user=bob"])
     {[ Path.parse "/srv/app/logs/ops_schema_02.jsonl" := [Newline] ]}).1
    !! Path.parse "/srv/app/logs/out/../ops_schema_02.jsonl"
  = Some [Newline].
Proof.
  rewrite (proj1 (other_files_untouched (Path.parse "/srv/app")
                    (Path.parse "/srv/app/logs/out") "../ops"
                    (classify ["2024-01-01 10:00:00 INFO auth login user=bob"])
                    {[ Path.parse "/srv/app/logs/ops_schema_02.jsonl" := [Newline] ]})
            (Path.parse "/srv/app/logs/out/../ops_schema_02.jsonl")).
  - by vm_compute.
  - intros i Hi.
    assert (Hone : i = 1) by (vm_compute in Hi; lia). subst i. by vm_compute.
  - by vm_compute.
Defined.

(** X5. A log in which no line parses (an empty log among them) gives an
    empty manifest: no shard file is written, and the only file written is
    the manifest file, holding the empty list. *)
Theorem nothing_parsed_empty_manifest (BASE_DIR output_dir : Path.t)
    (table_prefix : string) (lines : list string) (fs : filesystem) :
  (forall line, line ∈ lines -> parse_line line = None) ->
  write_jsonl BASE_DIR output_dir table_prefix (classify lines) fs
  = (<[manifest_path output_dir table_prefix := [JsonManifest []]]> fs, []).
Proof. intros H. by rewrite (classify_empty lines H). Qed.

Lemma nothing_parsed_empty_manifest_witness :
  write_jsonl (Path.parse "/srv/app") (Path.parse "/srv/app/logs/out") "ops"
    (classify ["too short"; EmptyString]) ∅
  = (<[manifest_path (Path.parse "/srv/app/logs/out") "ops" := [JsonManifest []]]> ∅,
     []).
Proof.
  apply nothing_parsed_empty_manifest.
  intros line Hin. apply list_elem_of_In in Hin. simpl in Hin.
  destruct Hin as [<-|[<-|[]]]; reflexivity.
Defined.

(** X6. The schema ids of a manifest are 1, 2, ... up to the number of
    groups, and no two entries share a table name, so no load drops the
    table of another entry. *)
Theorem manifest_numbering (BASE_DIR output_dir : Path.t) (table_prefix : string)
    (records_by_schema : groups) (fs : filesystem) :
  let manifest :=
    (write_jsonl BASE_DIR output_dir table_prefix records_by_schema fs).2 in
  schema_id <$> manifest = seq 1 (size records_by_schema)
  /\ table_name <$> manifest
     = (fun id => table_prefix +:+ "_schema_" +:+ format_02 id)
         <$> seq 1 (size records_by_schema)
  /\ NoDup (table_name <$> manifest).
Proof.
  intros manifest. subst manifest. split; [apply manifest_ids|].
  split; [apply manifest_tables|]. rewrite manifest_tables.
  apply NoDup_fmap_2_strong; [|apply NoDup_seq].
  intros i j _ _. apply shard_table_inj.
Qed.

(** X7. In the manifest written for a log, every entry stands for at least
    one record, its columns begin with timestamp, message_type, service,
    action and name no column twice. *)
Theorem manifest_entries_well_formed (BASE_DIR output_dir : Path.t)
    (table_prefix : string) (lines : list string) (fs : filesystem) :
  forall entry,
    entry ∈ (write_jsonl BASE_DIR output_dir table_prefix (classify lines) fs).2 ->
    1 <= row_count entry
    /\ BASE_COLUMNS `prefix_of` columns entry
    /\ NoDup (columns entry).
Proof.
  intros entry [i Hi]%list_elem_of_lookup_1.
  apply manifest_lookup in Hi as ([key records] & Hitem & ->). simpl.
  apply list_elem_of_lookup_2, sorted_items_lookup in Hitem.
  pose proof (classify_nonempty _ _ _ Hitem) as Hne.
  destruct (classify_key _ _ _ Hitem) as (rec & _ & Hrec & <-).
  apply list_elem_of_omap in Hrec as (line & _ & Hline).
  split; [destruct records; [done|simpl; lia]|].
  by apply parse_line_keys in Hline.
Qed.

Lemma manifest_entries_well_formed_witness :
  1 <= row_count (mk_entry 1 "ops_schema_01" (BASE_COLUMNS ++ ["user"])
                    "logs/out/ops_schema_01.jsonl" 1)
  /\ BASE_COLUMNS `prefix_of` BASE_COLUMNS ++ ["user"].
Proof.
  destruct (manifest_entries_well_formed (Path.parse "/srv/app")
              (Path.parse "/srv/app/logs/out") "ops"
              ["2024-01-01 10:00:00 INFO auth login user=bob"] ∅
              (mk_entry 1 "ops_schema_01" (BASE_COLUMNS ++ ["user"])
                 "logs/out/ops_schema_01.jsonl" 1))
    as (Hrows & Hcols & _); [vm_compute; left|].
  split; [exact Hrows|exact Hcols].
Defined.

(** X8. The row counts of the manifest written for a log add up to the
    number of lines that parsed. *)
Theorem manifest_row_counts_total (BASE_DIR output_dir : Path.t)
    (table_prefix : string) (lines : list string) (fs : filesystem) :
  sum_list (row_count
              <$> (write_jsonl BASE_DIR output_dir table_prefix (classify lines) fs).2)
  = length (parsed lines).
Proof.
  rewrite manifest_row_counts, sum_lengths.
  rewrite <- (Permutation_length (classify_all_records lines)).
  unfold all_records. apply Permutation_length, concat_perm.
  by rewrite sorted_items_perm.
Qed.

(** ** The classifier: skipped lines, number of schemas, logs in parts *)

Section ClassifierMore.

Lemma classify_dom lines :
  dom (classify lines) = list_to_set (schema_key <$> parsed lines).
Proof.
  apply set_eq. intros key.
  rewrite elem_of_dom, elem_of_list_to_set, list_elem_of_fmap. split.
  - intros [records H]. destruct (classify_key _ _ _ H) as (rec & _ & ? & ?).
    by exists rec.
  - intros (rec & -> & Hrec).
    destruct (classify lines !! schema_key rec) as [records|] eqn:E; [by eexists|].
    pose proof (classify_group lines (schema_key rec)) as Hg.
    unfold group in Hg. rewrite E in Hg. simpl in Hg.
    assert (Hin : rec ∈ filter (fun r => schema_key r = schema_key rec) (parsed lines))
      by by apply list_elem_of_filter.
    rewrite <- Hg in Hin. by apply elem_of_nil in Hin.
Qed.

End ClassifierMore.

(** X9. A line that does not parse (a blank line, a line of fewer than six
    tokens) has no effect on the grouping, wherever it stands in the
    log. *)
Theorem unparsable_line_ignored (before after : list string) (line : string) :
  parse_line line = None ->
  classify (before ++ line :: after) = classify (before ++ after).
Proof. apply classify_skip. Qed.

Lemma unparsable_line_ignored_witness :
  classify (["2024-01-01 10:00:00 INFO auth login user=bob"] ++ "too short" :: [])
  = classify (["2024-01-01 10:00:00 INFO auth login user=bob"] ++ []).
Proof. apply unparsable_line_ignored. reflexivity. Defined.

(** X10. The schemas found in a log are exactly the field-name tuples of
    its parsed records: the number of groups, which [main] reports, is the
    number of distinct tuples. *)
Theorem schemas_are_distinct_keys (lines : list string) :
  dom (classify lines) = list_to_set (schema_key <$> parsed lines)
  /\ size (classify lines) = length (remove_dups (schema_key <$> parsed lines)).
Proof.
  split; [apply classify_dom|].
  rewrite <- (size_dom (D:=gset (list string))), classify_dom.
  rewrite <- (size_list_to_set (C:=gset (list string)) (remove_dups _))
    by apply NoDup_remove_dups.
  f_equal. apply set_eq. intros key.
  by rewrite !elem_of_list_to_set, elem_of_remove_dups.
Qed.

(** X11. Grouping a log given in two parts: the group of a key for the
    whole log is its group for the first part followed by its group for
    the second. *)
Theorem classify_in_parts (lines1 lines2 : list string) (key : list string) :
  group (classify (lines1 ++ lines2)) key
  = group (classify lines1) key ++ group (classify lines2) key.
Proof.
  rewrite !classify_group. unfold parsed. by rewrite omap_app, filter_app.
Qed.

(** ** The parser: whitespace, numbers, the severity text, continued values *)

Section ParserMore.

Lemma split_from_pad_r tok s pad :
  Py.all_chars Py.isspace pad = true ->
  Py.split_from tok (s +:+ pad) = Py.split_from tok s.
Proof.
  intros Hpad. revert tok. induction s as [|c s IH]; intros tok.
  - rewrite app_empty_l. by apply split_from_spaces.
  - rewrite app_cons. simpl. destruct (Py.isspace c); by rewrite IH.
Qed.

Lemma split_pad_l pad s :
  Py.all_chars Py.isspace pad = true -> Py.split (pad +:+ s) = Py.split s.
Proof.
  unfold Py.split. induction pad as [|c pad IH]; [done|].
  rewrite app_cons. simpl. intros [-> Hpad]%andb_true_iff. by apply IH.
Qed.

Lemma parse_line_split_only line1 line2 :
  Py.split line1 = Py.split line2 -> parse_line line1 = parse_line line2.
Proof.
  intros H. unfold parse_line, payload_record. by rewrite !split_strip, H.
Qed.

Lemma isdecimal_not_space c : Py.isdecimal c = true -> Py.isspace c = false.
Proof. destruct c as [[] [] [] [] [] [] [] []]; by vm_compute. Qed.

Lemma lstrip_head s :
  match Py.head (Py.lstrip s) with
  | Some c => Py.isspace c = false
  | None => True
  end.
Proof.
  induction s as [|c s IH]; simpl; [done|].
  destruct (Py.isspace c) eqn:E; [done|]. simpl. done.
Qed.

Lemma rstrip_head s c : Py.head (Py.rstrip s) = Some c -> Py.head s = Some c.
Proof.
  destruct s as [|x s]; simpl; [done|].
  destruct (Py.rstrip s); [|done]. by destruct (Py.isspace x).
Qed.

Lemma rstrip_last_char s :
  match Py.last (Py.rstrip s) with
  | Some c => Py.isspace c = false
  | None => True
  end.
Proof.
  induction s as [|x s IH]; simpl; [done|].
  destruct (Py.rstrip s) as [|k kept]; [|exact IH].
  destruct (Py.isspace x) eqn:E; simpl; done.
Qed.

Lemma strip_trimmed s : trimmed (Py.strip s).
Proof.
  unfold trimmed, Py.strip. split; [|apply rstrip_last_char].
  destruct (Py.head (Py.rstrip (Py.lstrip s))) as [c|] eqn:E; [|done].
  apply rstrip_head in E. pose proof (lstrip_head s) as H. by rewrite E in H.
Qed.

Lemma all_chars_lstrip p s :
  Py.all_chars p s = true -> Py.all_chars p (Py.lstrip s) = true.
Proof.
  induction s as [|c s IH]; simpl; [done|].
  intros [Hc Hs]%andb_true_iff. destruct (Py.isspace c); [auto|].
  simpl. by rewrite Hc, Hs.
Qed.

Lemma all_chars_rstrip p s :
  Py.all_chars p s = true -> Py.all_chars p (Py.rstrip s) = true.
Proof.
  induction s as [|c s IH]; simpl; [done|].
  intros [Hc Hs]%andb_true_iff. specialize (IH Hs).
  destruct (Py.rstrip s) as [|k kept].
  - destruct (Py.isspace c); simpl; [done|by rewrite Hc].
  - simpl in *. by rewrite Hc, IH.
Qed.

Lemma all_chars_strip p s :
  Py.all_chars p s = true -> Py.all_chars p (Py.strip s) = true.
Proof. intros H. by apply all_chars_rstrip, all_chars_lstrip. Qed.

Lemma strip_decimal s : Py.all_chars Py.isdecimal s = true -> Py.strip s = s.
Proof.
  intros H. unfold Py.strip.
  assert (Hl : Py.lstrip s = s).
  { destruct s as [|c s]; [done|]. simpl in *.
    apply andb_true_iff in H as [Hc _]. by rewrite (isdecimal_not_space _ Hc). }
  rewrite Hl. clear Hl. induction s as [|c s IH]; [done|]. simpl in *.
  apply andb_true_iff in H as [Hc Hs]. rewrite (IH Hs).
  destruct s; [|done]. by rewrite (isdecimal_not_space _ Hc).
Qed.

Lemma unquote_decimal s : Py.all_chars Py.isdecimal s = true -> unquote s = s.
Proof.
  intros H. unfold unquote. rewrite (strip_decimal _ H).
  destruct s as [|c s]; [done|]. unfold Py.startswith_char. simpl in *.
  apply andb_true_iff in H as [Hc _].
  destruct (Ascii.eqb_spec c dquote) as [->|]; [by vm_compute in Hc|done].
Qed.

Lemma int_from_nonneg s acc : (0 <= acc)%Z -> (0 <= Py.int_from acc s)%Z.
Proof.
  revert acc. induction s as [|c s IH]; intros acc Hacc; simpl; [done|].
  apply IH. unfold Py.digit_value. lia.
Qed.

Lemma int_from_uint d acc :
  Py.int_from (Z.of_nat acc) (NilEmpty.string_of_uint d)
  = Z.of_nat (Nat.of_uint_acc d acc).
Proof.
  revert acc. induction d; intros acc; simpl; [done|..];
    rewrite Nat.tail_mul_spec, <- IHd; f_equal; unfold Py.digit_value; simpl; lia.
Qed.

Lemma int_from_decimal n : Py.int_from 0%Z (decimal n) = Z.of_nat n.
Proof.
  unfold decimal. rewrite (int_from_uint _ 0).
  f_equal. apply Unsigned.of_to.
Qed.

Lemma decimal_nonempty n : decimal n <> EmptyString.
Proof.
  intros H. pose proof (read_decimal_decimal n) as Hr. rewrite H in Hr.
  injection Hr as <-. discriminate H.
Qed.

Lemma decimal_numeral_dec s : decimal_numeral s \/ ~ decimal_numeral s.
Proof.
  unfold decimal_numeral. destruct s as [|c s]; [right; by intros [? _]|].
  destruct (Py.all_chars Py.isdecimal (String c s)); [by left|right; by intros [_ ?]].
Qed.

Lemma point_numeral_dec s : point_numeral s \/ ~ point_numeral s.
Proof.
  unfold point_numeral. destruct (decide (Py.count "." s = 1)) as [H|H].
  - destruct (decimal_numeral_dec (Py.remove_first "." s)); [by left|].
    right. by intros [_ ?].
  - right. by intros [? _].
Qed.

Lemma decimal_not_point s : decimal_numeral s -> ~ point_numeral s.
Proof.
  intros [_ H] [Hc _]. destruct (all_decimal_no_point _ H) as (_ & Hc' & _). lia.
Qed.

End ParserMore.

(** X12. Only the tokens of a line matter to the parser: two lines with the
    same whitespace-separated tokens give the same result, so whitespace
    around a line (the line end among it) changes nothing. *)
Theorem parse_line_whitespace (line : string) :
  (forall line', Py.split line' = Py.split line -> parse_line line' = parse_line line)
  /\ (forall pad1 pad2,
        Py.all_chars Py.isspace pad1 = true -> Py.all_chars Py.isspace pad2 = true ->
        parse_line (pad1 +:+ line +:+ pad2) = parse_line line).
Proof.
  split; [intros line'; apply parse_line_split_only|].
  intros pad1 pad2 H1 H2. apply parse_line_split_only.
  rewrite split_pad_l by done. by apply split_from_pad_r.
Qed.

Lemma parse_line_whitespace_witness :
  parse_line ("  " +:+ "2024-01-01 10:00:00 INFO auth login user=bob"
                +:+ String "010"%char EmptyString)
  = parse_line "2024-01-01 10:00:00 INFO auth login user=bob".
Proof.
  apply (proj2 (parse_line_whitespace
                  "2024-01-01 10:00:00 INFO auth login user=bob")); reflexivity.
Defined.

(** X13. What kind of value normalisation gives is decided by the text left
    after unquoting, and only by it: an integer comes from a run of decimal
    digits only, no more than 4300 of them, and is never negative; a float
    comes from decimal digits around exactly one point only; and a string
    result is that text unchanged, which is then no such float and, when a
    run of decimal digits, one of more than 4300. *)
Theorem normalize_value_kinds (raw : string) :
  (forall n, normalize_value raw = VInt n ->
     decimal_numeral (unquote raw)
     /\ String.length (unquote raw) <= Py.MAX_STR_DIGITS
     /\ n = Py.int_from 0%Z (unquote raw)
     /\ (0 <= n)%Z)
  /\ (forall numeral, normalize_value raw = VFloat numeral ->
        point_numeral (unquote raw) /\ numeral = unquote raw)
  /\ (forall s, normalize_value raw = VStr s ->
        s = unquote raw
        /\ (decimal_numeral (unquote raw) ->
            Py.MAX_STR_DIGITS < String.length (unquote raw))
        /\ ~ point_numeral (unquote raw)).
Proof.
  destruct (decimal_numeral_dec (unquote raw)) as [Hd|Hd].
  - destruct (le_lt_dec (String.length (unquote raw)) Py.MAX_STR_DIGITS)
      as [Hlen|Hlen].
    + rewrite (normalize_decimal _ Hd Hlen). split; [|by split].
      intros n [= <-]. split; [done|]. split; [done|]. split; [done|].
      by apply int_from_nonneg.
    + rewrite (normalize_long _ Hd Hlen). split; [done|]. split; [done|].
      intros s [= <-]. split; [done|]. split; [done|].
      by apply decimal_not_point.
  - destruct (point_numeral_dec (unquote raw)) as [Hp|Hp].
    + rewrite (normalize_point _ Hp). split; [done|]. split; [|done].
      by intros numeral [= <-].
    + rewrite (normalize_other _ Hd Hp). split; [done|]. split; [done|].
      by intros s [= <-].
Qed.

Lemma normalize_value_kinds_witness :
  decimal_numeral (unquote " 42 ")
  /\ String.length (unquote " 42 ") <= Py.MAX_STR_DIGITS
  /\ 42%Z = Py.int_from 0%Z (unquote " 42 ")
  /\ (0 <= 42)%Z.
Proof.
  apply (proj1 (normalize_value_kinds " 42 ") 42%Z). by vm_compute.
Defined.

(** X14. A natural number written in decimal with no more than 4300 digits
    is read back as that number: normalising the decimal text of [n] gives
    the integer [n].  With more digits the text comes back as a string. *)
Theorem normalize_value_reads_decimal (n : nat) :
  (String.length (decimal n) <= Py.MAX_STR_DIGITS ->
   normalize_value (decimal n) = VInt (Z.of_nat n))
  /\ (Py.MAX_STR_DIGITS < String.length (decimal n) ->
      normalize_value (decimal n) = VStr (decimal n)).
Proof.
  pose proof (unquote_decimal _ (decimal_digits n)) as Hu.
  assert (Hd : decimal_numeral (unquote (decimal n))).
  { rewrite Hu. split; [apply decimal_nonempty|apply decimal_digits]. }
  split; intros Hlen.
  - rewrite (normalize_decimal _ Hd) by (by rewrite Hu).
    by rewrite Hu, int_from_decimal.
  - rewrite (normalize_long _ Hd) by (by rewrite Hu). by rewrite Hu.
Qed.

Lemma normalize_value_reads_decimal_witness :
  normalize_value (decimal 2024) = VInt (Z.of_nat 2024).
Proof.
  apply (proj1 (normalize_value_reads_decimal 2024)).
  apply Nat.leb_le. by vm_compute.
Defined.

Section ParserScan.

Lemma partition_app key value :
  Py.contains "=" key = false ->
  Py.contains "=" (key +:+ "=" +:+ value) = true
  /\ Py.partition "=" (key +:+ "=" +:+ value) = (key, value).
Proof.
  induction key as [|c key IH]; [done|]. rewrite app_cons. simpl.
  destruct (Ascii.eqb c "="); [done|]. simpl. intros H.
  destruct (IH H) as [-> ->]. done.
Qed.

(** Tokens without [=] after a pending key that is not empty extend the
    value of that key and nothing else. *)
Lemma scan_continuation tokens payload key value :
  key <> EmptyString -> Forall no_equals tokens ->
  OrderedDict.get key payload = Some value ->
  let st := fold_left scan_token tokens (payload, Some key) in
  OrderedDict.get key st.1 = Some (join_continued value tokens)
  /\ st.2 = Some key
  /\ OrderedDict.keys st.1 = OrderedDict.keys payload.
Proof.
  intros Hkey Htokens. revert payload value.
  induction Htokens as [|token tokens Htoken _ IH]; intros payload value Hget; simpl.
  - done.
  - unfold scan_token at 2. rewrite Htoken.
    destruct key as [|c key]; [done|]. rewrite Hget.
    destruct (IH (OrderedDict.set (String c key) (value +:+ " " +:+ token) payload)
                (value +:+ " " +:+ token)) as (H1 & H2 & H3).
    { apply get_set_eq. }
    split; [exact H1|]. split; [exact H2|].
    rewrite H3, keys_set. apply add_key_present. by eapply get_Some_key.
Qed.

Lemma scan_leading tokens :
  Forall no_equals tokens -> fold_left scan_token tokens ([], None) = ([], None).
Proof.
  induction 1 as [|token tokens Htoken _ IH]; simpl; [done|].
  unfold no_equals in Htoken. by rewrite Htoken.
Qed.

End ParserScan.

(** X15. A value may run over several tokens: after a [key=value] token
    with a non-empty key, the tokens without [=] that follow are appended
    to the value of that key, one space before each, whatever came before
    in the tail; the payload gets no other key from them. *)
Theorem value_continues_over_tokens (before continued : list string)
    (key value : string) :
  key <> EmptyString -> no_equals key -> Forall no_equals continued ->
  OrderedDict.get key
    (scan_payload (before ++ (key +:+ "=" +:+ value) :: continued)).1
  = Some (join_continued value continued)
  /\ OrderedDict.keys (scan_payload (before ++ (key +:+ "=" +:+ value) :: continued)).1
     = add_key (OrderedDict.keys (scan_payload before).1) key.
Proof.
  intros Hkey Hno Hcont. unfold scan_payload. rewrite fold_left_app. simpl.
  destruct (fold_left scan_token before ([], None)) as [payload cur] eqn:E.
  unfold scan_token at 2. simpl.
  destruct (partition_app key value Hno) as [-> ->].
  destruct (scan_continuation continued (OrderedDict.set key value payload)
              key value Hkey Hcont (get_set_eq _ _ _)) as (H1 & _ & H3).
  split; [exact H1|]. by rewrite H3, keys_set.
Qed.

Lemma value_continues_over_tokens_witness :
  OrderedDict.get "issue"
    (scan_payload (["host=a1"] ++ ("issue" +:+ "=" +:+ "Disk") :: ["nearly"; "full"])).1
  = Some "Disk nearly full".
Proof.
  apply (proj1 (value_continues_over_tokens ["host=a1"] ["nearly"; "full"]
                  "issue" "Disk" ltac:(discriminate) eq_refl
                  ltac:(repeat constructor))).
Defined.

(** X16. Tokens without [=] that stand before the first [key=value] token
    of a tail are dropped: the scan goes on as if they were not there. *)
Theorem leading_tokens_dropped (leading tokens : list string) :
  Forall no_equals leading ->
  scan_payload (leading ++ tokens) = scan_payload tokens.
Proof.
  intros H. unfold scan_payload. by rewrite fold_left_app, scan_leading.
Qed.

Lemma leading_tokens_dropped_witness :
  scan_payload (["stray"; "words"] ++ ["user=bob"]) = scan_payload ["user=bob"].
Proof. apply leading_tokens_dropped. repeat constructor. Defined.

(** X17. The severity text that [parse_line] extracts has no whitespace at
    either end and no closing parenthesis, and the rewritten issue has no
    whitespace at either end. *)
Theorem severity_text_trimmed (line : string) (filled : record)
    (issue group1 : string) :
  payload_record line = Some filled ->
  OrderedDict.get "issue" filled = Some (VStr issue) ->
  Re.search issue = Some group1 ->
  exists rec severity cleaned,
    parse_line line = Some rec
    /\ OrderedDict.get "severity" rec = Some (VStr severity)
    /\ OrderedDict.get "issue" rec = Some (VStr cleaned)
    /\ trimmed severity
    /\ Py.contains ")" severity = false
    /\ trimmed cleaned.
Proof.
  intros Hf Hi Hs.
  exists (extract_severity filled), (Py.strip group1), (clean_issue issue).
  unfold parse_line. rewrite Hf.
  destruct (extract_severity_found _ _ _ Hi Hs) as (H1 & H2 & _).
  split; [done|]. split; [done|]. split; [done|].
  split; [apply strip_trimmed|]. split; [|apply strip_trimmed].
  apply search_Some in Hs as (_ & _ & _ & _ & _ & _ & Hg).
  apply (all_chars_strip Re.not_rparen) in Hg.
  clear -Hg. induction (Py.strip group1) as [|c s IH]; [done|]. simpl in *.
  apply andb_true_iff in Hg as [Hc Hs]. rewrite (IH Hs), orb_false_r.
  unfold Re.not_rparen in Hc. by destruct (Ascii.eqb c ")").
Qed.

Lemma severity_text_trimmed_witness :
  exists rec severity cleaned,
    parse_line "2024-01-01 10:00:00 WARN disk check issue=Disk (severity:  high )."
    = Some rec
    /\ OrderedDict.get "severity" rec = Some (VStr severity)
    /\ OrderedDict.get "issue" rec = Some (VStr cleaned)
    /\ trimmed severity
    /\ Py.contains ")" severity = false
    /\ trimmed cleaned.
Proof.
  apply (severity_text_trimmed
           "2024-01-01 10:00:00 WARN disk check issue=Disk (severity:  high )."
           (base_record "2024-01-01" "10:00:00" "WARN" "disk" "check"
              ++ [("issue", VStr "Disk (severity: high ).")])
           "Disk (severity: high )." "high ");
    vm_compute; reflexivity.
Defined.

(** ** Paths: where the shards go and how the drivers find them *)

Section PathsMore.

















Lemma plain_name_parse name :
  Py.contains "/" name = false -> 2 <= String.length name ->
  Path.parse name = Path.mk EmptyString [name].
Proof.
  intros Hs Hlen. unfold Path.parse. rewrite segments_no_slash by done.
  rewrite app_empty_l. simpl. rewrite kept_long by done. f_equal.
  destruct name as [|c name]; [done|]. simpl in Hs.
  destruct c as [[] [] [] [] [] [] [] []]; done.
Qed.

End PathsMore.

Section ShardPlaces.

Lemma root_of_slash s : Path.root_of (String "/" s) <> EmptyString.
Proof.
  destruct s as [|c2 [|c3 s]]; simpl; [done|..];
    repeat match goal with
           | |- context [match ?c with Ascii _ _ _ _ _ _ _ _ => _ end] =>
               destruct c as [[] [] [] [] [] [] [] []]
           end; done.
Qed.

Lemma div_plain p name :
  Py.contains "/" name = false -> 2 <= String.length name ->
  Path.div p name = Path.mk (Path.root p) (Path.parts p ++ [name]).
Proof. intros Hs Hlen. unfold Path.div. by rewrite plain_name_parse. Qed.

Lemma div_rooted p s : Path.div p (String "/" s) = Path.parse (String "/" s).
Proof.
  unfold Path.div. pose proof (root_of_slash s) as H.
  change (Path.root (Path.parse (String "/" s))) with (Path.root_of (String "/" s)).
  by destruct (Path.root_of (String "/" s)).
Qed.


End ShardPlaces.

(** X18. Where the files go.  With a table prefix that has no slash, every
    shard file and the manifest file lie directly in the output directory,
    under the names prefix_schema_NN.jsonl and prefix_schema_manifest.json.
    With a prefix that begins with a slash the output directory plays no
    part: the files go where the prefix points. *)
Theorem shard_location (output_dir : Path.t) (table_prefix : string) (n : nat) :
  (Py.contains "/" table_prefix = false ->
   shard_file output_dir table_prefix n
   = Path.mk (Path.root output_dir)
       (Path.parts output_dir
          ++ [table_prefix +:+ "_schema_" +:+ format_02 n +:+ ".jsonl"])
   /\ manifest_path output_dir table_prefix
      = Path.mk (Path.root output_dir)
          (Path.parts output_dir ++ [table_prefix +:+ "_schema_manifest.json"]))
  /\ (forall rest,
        table_prefix = String "/" rest ->
        shard_file output_dir table_prefix n
        = Path.parse (table_prefix +:+ "_schema_" +:+ format_02 n +:+ ".jsonl")
        /\ manifest_path output_dir table_prefix
           = Path.parse (table_prefix +:+ "_schema_manifest.json")).
Proof.
  split.
  - intros Hp. unfold shard_file, manifest_path. split; apply div_plain.
    + by rewrite !contains_app, Hp, format_02_no_slash.
    + rewrite !length_app_str. simpl. lia.
    + by rewrite contains_app, Hp.
    + rewrite length_app_str. simpl. lia.
  - intros rest ->. unfold shard_file, manifest_path.
    rewrite !app_cons. split; apply div_rooted.
Qed.

Lemma shard_location_witness :
  shard_file (Path.parse "/srv/app/logs/out") "ops" 3
  = Path.mk "/" ["srv"; "app"; "logs"; "out"; "ops_schema_03.jsonl"]
  /\ shard_file (Path.parse "/srv/app/logs/out") "/tmp/ops" 3
     = Path.mk "/" ["tmp"; "ops_schema_03.jsonl"].
Proof.
  split.
  - exact (proj1 (proj1 (shard_location (Path.parse "/srv/app/logs/out") "ops" 3)
                    eq_refl)).
  - exact (proj1 (proj2 (shard_location (Path.parse "/srv/app/logs/out") "/tmp/ops" 3)
                    "tmp/ops" eq_refl)).
Defined.



(** ** The whole run: what the drivers load is what the writer wrote *)

Section WholeRun.

Variables (env : Sync.environment) (BASE_DIR : Path.t).






End WholeRun.

(** X20. A driver that is switched off makes no database call and raises
    nothing, whatever the surroundings: it prints one line and returns.  The
    local driver is off when its skip flag is set or no database path is
    given; the skip flag is tested before the path, so a skipped driver does
    not fail on a missing database file.  The remote driver is off when its
    skip flag is set, when the token is missing or empty, or when the
    database name is empty.  When a path is given, the driver is not
    skipped and no file is there, the local driver raises
    [FileNotFoundError] before any database call. *)
Theorem driver_switched_off (env : Sync.environment) (BASE_DIR : Path.t)
    (manifest : list manifest_entry) (table_prefix : string)
    (trace : list Sync.event) :
  (forall duckdb_path skip,
     skip = true \/ duckdb_path = None ->
     exists text,
       Sync.rebuild_duckdb_tables env BASE_DIR manifest duckdb_path table_prefix
         skip trace = (trace ++ [Sync.Print text], Sync.Returned tt))
  /\ (forall duckdb_path,
        Sync.path_exists env duckdb_path = false ->
        exists message,
          Sync.rebuild_duckdb_tables env BASE_DIR manifest (Some duckdb_path)
            table_prefix false trace
          = (trace, Sync.Raised (Sync.FileNotFoundError message)))
  /\ (forall motherduck_db skip,
        skip = true
        \/ Sync.MOTHERDUCK_TOKEN env = None
        \/ Sync.MOTHERDUCK_TOKEN env = Some EmptyString
        \/ motherduck_db = EmptyString ->
        exists text,
          Sync.load_into_motherduck env BASE_DIR manifest table_prefix motherduck_db
            skip trace = (trace ++ [Sync.Print text], Sync.Returned tt)).
Proof.
  split; [|split].
  - intros duckdb_path skip Hoff. unfold Sync.rebuild_duckdb_tables, Sync.print.
    destruct skip; [by eexists|]. destruct Hoff as [[=]| ->]. by eexists.
  - intros p Hp. unfold Sync.rebuild_duckdb_tables, Sync.raise. rewrite Hp. simpl.
    by eexists.
  - intros db skip Hoff. unfold Sync.load_into_motherduck, Sync.print.
    destruct skip; [by eexists|].
    destruct Hoff as [[=]|[-> |[-> | ->]]]; try by eexists.
    destruct (Sync.MOTHERDUCK_TOKEN env) as [[|c token]|]; by eexists.
Qed.

Lemma driver_switched_off_witness :
  exists text,
    Sync.rebuild_duckdb_tables env_no_database (Path.parse "/srv/app") one_shard
      (Some (Path.parse "/srv/db.duckdb")) "ops" true []
    = ([] ++ [Sync.Print text], Sync.Returned tt).
Proof.
  exact (proj1 (driver_switched_off env_no_database (Path.parse "/srv/app")
                  one_shard "ops" [])
           (Some (Path.parse "/srv/db.duckdb")) true (or_introl eq_refl)).
Defined.


